(** * LR wrapper induction (single entry, several attributes)

    A shallow embedding of [supervised_single_entry_lr_wrapper.py]: the
    [ProperSuffix] test, the delimiter learner of [SingleEntryLRWrapper]
    ([GetValidLeft], [GetValidRight] and the neighbour computations they rest
    on) and the extractor [execLR].

    Python values are modelled as follows.
    - [str] is a list of characters; slices, [find], [in], [startswith] and
      [endswith] are written out with Python's conventions (negative indices,
      clamping, the [-1] of an unsuccessful [find]).
    - integers are [Z].
    - a raised exception is the [Raise] branch of [result].
    - a [set] of strings is the list of its elements in iteration order.  The
      order CPython iterates a set of strings in depends on the strings' hashes,
      so the function building a set from the sequence of its insertions is a
      parameter of the development, constrained only to keep the elements and
      to drop duplicates.
    - reading a file is the library's: a file system gives, for a path, the
      text [read()] returns or the exception raised.
    - where a statement is about what a call changes, the lists of the class
      are objects in a store and a call passes the store on. *)

From Stdlib Require Import List ZArith Lia Bool Ascii Permutation.
From Stdlib Require String.
Import ListNotations String.StringSyntax.
Delimit Scope string_scope with string.

Local Open Scope Z_scope.

(** ** Python primitives *)

Module Py.

Definition str := list ascii.

(** A string literal. *)
Definition lit (s : String.string) : str := String.list_ascii_of_string s.
Arguments lit s%_string.

(** The exceptions the program can raise.  [UnicodeDecodeError] is a subclass
    of [ValueError] in Python; it is kept apart from the [ValueError] the
    program raises itself. *)
Inductive exn := ValueError | IndexError | OSError | UnicodeDecodeError.

Inductive result (A : Type) : Type :=
| Ok (a : A)
| Raise (e : exn).
Arguments Ok {A} a.
Arguments Raise {A} e.

Definition bind {A B} (m : result A) (f : A -> result B) : result B :=
  match m with
  | Ok a => f a
  | Raise e => Raise e
  end.

(** [for x in l: ...] collecting one value per element, stopping at the first
    exception. *)
Fixpoint mapM {A B} (f : A -> result B) (l : list A) : result (list B) :=
  match l with
  | [] => Ok []
  | x :: l' =>
      bind (f x) (fun y => bind (mapM f l') (fun ys => Ok (y :: ys)))
  end.

Definition len {A} (l : list A) : Z := Z.of_nat (length l).

(** The bound of a slice: a negative index counts from the end, and the result
    is clamped to [0, n]. *)
Definition clamp (n i : Z) : Z :=
  if i <? 0 then Z.max 0 (i + n) else Z.min i n.

(** [s[lo:hi]]; [None] is an omitted bound. *)
Definition slice {A} (s : list A) (lo hi : option Z) : list A :=
  let n := len s in
  let a := match lo with None => 0 | Some i => clamp n i end in
  let b := match hi with None => n | Some j => clamp n j end in
  firstn (Z.to_nat (b - a)) (skipn (Z.to_nat a) s).

(** [l[i]], raising [IndexError] out of range. *)
Definition index {A} (l : list A) (i : Z) : result A :=
  let j := if i <? 0 then i + len l else i in
  if j <? 0 then Raise IndexError
  else match nth_error l (Z.to_nat j) with
       | Some x => Ok x
       | None => Raise IndexError
       end.

(** [l[i] = v], raising [IndexError] out of range. *)
Fixpoint set_nth {A} (l : list A) (n : nat) (v : A) : option (list A) :=
  match l, n with
  | [], _ => None
  | _ :: l', O => Some (v :: l')
  | x :: l', S n' => option_map (cons x) (set_nth l' n' v)
  end.

Definition setitem {A} (l : list A) (i : Z) (v : A) : result (list A) :=
  let j := if i <? 0 then i + len l else i in
  if j <? 0 then Raise IndexError
  else match set_nth l (Z.to_nat j) v with
       | Some l' => Ok l'
       | None => Raise IndexError
       end.

(** [range(n)]. *)
Definition range (n : Z) : list Z :=
  map Z.of_nat (seq 0 (Z.to_nat n)).

(** [enumerate(l)]. *)
Definition enumerate {A} (l : list A) : list (Z * A) :=
  combine (range (len l)) l.

Definition str_eqb (a b : str) : bool :=
  if list_eq_dec ascii_dec a b then true else false.

(** [s.startswith(u)]. *)
Fixpoint startswith (s u : str) {struct u} : bool :=
  match u, s with
  | [], _ => true
  | _ :: _, [] => false
  | c :: u', d :: s' => Ascii.eqb c d && startswith s' u'
  end.

(** [s.endswith(u)]. *)
Definition endswith (s u : str) : bool :=
  (length u <=? length s)%nat
  && str_eqb (skipn (length s - length u) s) u.

(** The lowest position at which [u] occurs in [s]. *)
Fixpoint search (s u : str) : option nat :=
  if startswith s u then Some O
  else match s with
       | [] => None
       | _ :: s' => option_map S (search s' u)
       end.

(** [s.find(u)]: the lowest index of an occurrence, [-1] when there is none. *)
Definition find (s u : str) : Z :=
  match search s u with
  | Some i => Z.of_nat i
  | None => -1
  end.

(** [u in s]. *)
Definition contains (u s : str) : bool :=
  match search s u with
  | Some _ => true
  | None => false
  end.

(** [min(l, key=len)]: the first element of least length, [ValueError] on an
    empty collection. *)
Fixpoint min_by_len_from (best : str) (l : list str) : str :=
  match l with
  | [] => best
  | x :: l' =>
      if (length x <? length best)%nat then min_by_len_from x l'
      else min_by_len_from best l'
  end.

Definition min_by_len (l : list str) : result str :=
  match l with
  | [] => Raise ValueError
  | x :: l' => Ok (min_by_len_from x l')
  end.

End Py.

Import Py.

Notation "x <- m ;; k" := (bind m (fun x => k))
  (at level 61, m at next level, right associativity).

(** ** The module-level function *)

(** [ProperSuffix(u, s)]: [s.endswith(u) and u not in s[:-len(u)]]. *)
Definition ProperSuffix (u s : str) : bool :=
  endswith s u && negb (contains u (slice s None (Some (- len u)))).

(** ** The class [SingleEntryLRWrapper] *)

(** A label: the begin and end offsets of an attribute in a document. *)
Definition span := (Z * Z)%type.

(** The instance attributes set by [__init__]. *)
Record wrapper := mkWrapper {
  labels : list (list span);
  examples : list str;
  num_attributes : Z;
  left : list str;
  right : list str
}.

Definition with_left (self : wrapper) (l : list str) : wrapper :=
  mkWrapper (labels self) (examples self) (num_attributes self) l (right self).

Definition with_right (self : wrapper) (r : list str) : wrapper :=
  mkWrapper (labels self) (examples self) (num_attributes self) (left self) r.

(** The object as [__init__] has it before the two searches: both tables hold
    [num_attributes] empty strings. *)
Definition blank (docs : list str) (labs : list (list span)) (n : Z) : wrapper :=
  mkWrapper labs docs n (repeat [] (Z.to_nat n)) (repeat [] (Z.to_nat n)).

(** [for u in cands: if valid(u): <assign u>; break]: the first candidate, in
    iteration order, that validates; [None] when the loop runs to its end. *)
Fixpoint first_valid (valid : str -> result bool) (cands : list str)
  : result (option str) :=
  match cands with
  | [] => Ok None
  | u :: cands' =>
      b <- valid u ;;
      if b then Ok (Some u) else first_valid valid cands'
  end.

(** [for k in ks: self = step(self, k)]. *)
Fixpoint for_each {S} (step : S -> Z -> result S) (ks : list Z) (self : S)
  : result S :=
  match ks with
  | [] => Ok self
  | k :: ks' => self' <- step self k ;; for_each step ks' self'
  end.

Section SingleEntryLRWrapper.

(** The set built by inserting the elements of a list in order, as the list of
    its elements in iteration order. *)
Variable set_of_list : list str -> list str.
Hypothesis set_of_list_In : forall l x, In x (set_of_list l) <-> In x l.
Hypothesis set_of_list_NoDup : forall l, NoDup (set_of_list l).

(** [{f(i, P) for (i, P) in enumerate(self.examples)}]. *)
Definition set_comprehension (self : wrapper) (f : Z -> str -> result str)
  : result (list str) :=
  xs <- mapM (fun iP => f (fst iP) (snd iP)) (enumerate (examples self)) ;;
  Ok (set_of_list xs).

(** [self.labels[i][k]]. *)
Definition label (self : wrapper) (i k : Z) : result span :=
  row <- index (labels self) i ;;
  index row k.

Definition attributes (self : wrapper) (k : Z) : result (list str) :=
  set_comprehension self (fun i P =>
    b <- label self i k ;;
    e <- label self i k ;;
    Ok (slice P (Some (fst b)) (Some (snd e)))).

Definition example_heads (self : wrapper) : result (list str) :=
  set_comprehension self (fun i P =>
    e <- label self i 0 ;;
    Ok (slice P None (Some (fst e)))).

Definition example_tails (self : wrapper) : result (list str) :=
  set_comprehension self (fun i P =>
    b <- label self i (-1) ;;
    Ok (slice P (Some (snd b)) None)).

Definition Seps (self : wrapper) (k : Z) : result (list str) :=
  if k =? num_attributes self - 1 then Ok []
  else
    set_comprehension self (fun i P =>
      b <- label self i k ;;
      e <- label self i (k + 1) ;;
      Ok (slice P (Some (snd b)) (Some (fst e)))).

(** [a.union(b)]. *)
Definition union (a b : list str) : list str := set_of_list (a ++ b).

Definition LeftNeighbors (self : wrapper) (k : Z) : result (list str) :=
  if k =? 0 then
    a <- Seps self (num_attributes self - 1) ;;
    b <- example_heads self ;;
    Ok (union a b)
  else Seps self (k - 1).

Definition RightNeighbors (self : wrapper) (k : Z) : result (list str) :=
  if k =? num_attributes self - 1 then
    a <- Seps self (num_attributes self - 1) ;;
    b <- example_tails self ;;
    Ok (union a b)
  else Seps self k.

Definition LeftCandidates (self : wrapper) (k : Z) : result (list str) :=
  n <- LeftNeighbors self k ;;
  shortest <- min_by_len n ;;
  Ok (set_of_list
        (map (fun i => slice shortest (Some i) None) (range (len shortest)))).

Definition RightCandidates (self : wrapper) (k : Z) : result (list str) :=
  n <- RightNeighbors self k ;;
  shortest <- min_by_len n ;;
  Ok (set_of_list
        (map (fun i => slice shortest None (Some i)) (range (len shortest)))).

(** The two loops of [IsValidLeft] return [False] at the first neighbour of
    which [u] is no proper suffix and at the first tail that holds [u]; the
    tails are only computed when every neighbour passed. *)
Definition IsValidLeft (self : wrapper) (u : str) (k : Z) : result bool :=
  ns <- LeftNeighbors self k ;;
  if negb (forallb (ProperSuffix u) ns) then Ok false
  else if k =? 0 then
    ts <- example_tails self ;;
    Ok (negb (existsb (contains u) ts))
  else Ok true.

Definition IsValidRight (self : wrapper) (u : str) (k : Z) : result bool :=
  ats <- attributes self k ;;
  if existsb (contains u) ats then Ok false
  else
    ns <- RightNeighbors self k ;;
    Ok (forallb (fun s => startswith s u) ns).

(** The inner loop of [GetValidLeft], up to its [break]. *)
Definition GetValidLeft_inner (self : wrapper) (k : Z) : result (option str) :=
  cands <- LeftCandidates self k ;;
  first_valid (fun u => IsValidLeft self u k) cands.

(** One turn of the outer loop of [GetValidLeft]. *)
Definition GetValidLeft_step (self : wrapper) (k : Z) : result wrapper :=
  found <- GetValidLeft_inner self k ;;
  match found with
  | Some u => l <- setitem (left self) k u ;; Ok (with_left self l)
  | None => Ok self
  end.

Definition GetValidLeft (self : wrapper) : result wrapper :=
  for_each GetValidLeft_step (range (num_attributes self)) self.

Definition GetValidRight_inner (self : wrapper) (k : Z) : result (option str) :=
  cands <- RightCandidates self k ;;
  first_valid (fun u => IsValidRight self u k) cands.

Definition GetValidRight_step (self : wrapper) (k : Z) : result wrapper :=
  found <- GetValidRight_inner self k ;;
  match found with
  | Some u => r <- setitem (right self) k u ;; Ok (with_right self r)
  | None => Ok self
  end.

Definition GetValidRight (self : wrapper) : result wrapper :=
  for_each GetValidRight_step (range (num_attributes self)) self.

(** [__init__] from the documents read: the attribute count, the two tables
    of empty strings, then the two searches. *)
Definition learn (docs : list str) (labs : list (list span)) : result wrapper :=
  row0 <- index labs 0 ;;
  let n := len row0 in
  let self := blank docs labs n in
  self <- GetValidLeft self ;;
  GetValidRight self.

(** [with open(path, 'r', encoding='utf-8') as f: f.read()].  Opening,
    decoding and reading are the library's: the file system [fs] gives, for a
    path, what this returns, the decoded text with its line ends translated,
    or the exception it raises ([OSError] when the path cannot be opened,
    [UnicodeDecodeError] when its bytes are not UTF-8). *)
Definition read_file (fs : str -> result str) (path : str) : result str :=
  fs path.

(** [__init__]. *)
Definition init (fs : str -> result str) (examples_file_paths : list str)
    (labs : list (list span)) : result wrapper :=
  if len labs =? 0 then Raise ValueError
  else
    docs <- mapM (read_file fs) examples_file_paths ;;
    learn docs labs.

End SingleEntryLRWrapper.

(** *** Extraction *)

(** The body of the loop of [execLR], on the pair of the list [attr] and the
    page [P]. *)
Definition execLR_step (st : list str * str) (lr : str * str)
  : list str * str :=
  let (attr, P) := st in
  let (l, r) := lr in
  let l_idx := find P l + len l in
  let r_idx := find (slice P (Some l_idx) None) r + l_idx in
  (attr ++ [slice P (Some l_idx) (Some r_idx)], slice P (Some r_idx) None).

(** [execLR] as a method call: the value returned and the object after the
    call. *)
Definition execLR (self : wrapper) (P : str) : list str * wrapper :=
  let attr := [] in
  let st := fold_left execLR_step (combine (left self) (right self)) (attr, P) in
  (fst st, self).

(** The insertion order as iteration order. *)
Definition insertion_order (l : list str) : list str :=
  nodup (list_eq_dec ascii_dec) l.

(** ** Notions the statements use *)

(** [u] occurs in [s]. *)
Definition Occurs (u s : str) : Prop := exists x y, s = x ++ u ++ y.

(** The page [execLR] searches when it comes to the pair of index [k]: the
    second component of the loop state after [k] turns. *)
Definition cursor (self : wrapper) (P : str) (k : nat) : str :=
  snd (fold_left execLR_step
         (firstn k (combine (left self) (right self))) ([], P)).

(** The delimiter table of the end-to-end scenario, and a page of another
    template. *)
Definition scenario_table : wrapper :=
  mkWrapper [] [] 2 [lit "Name: "; lit ": "] [lit " Age"; lit ""].

Definition other_template_page : str := lit "Full name: Carol Age: 22".

(** Training data as the data model has it: at least one document, one row
    of labels for each document, and as many labels in every row as in the
    first. *)
Definition well_formed (docs : list str) (labs : list (list span)) : Prop :=
  docs <> []
  /\ length labs = length docs
  /\ forall row, In row labs -> length row = length (hd [] labs).

(** The object holds the training data [docs] and [labs]. *)
Definition holds (self : wrapper) (docs : list str) (labs : list (list span))
  : Prop :=
  labels self = labs
  /\ examples self = docs
  /\ num_attributes self = len (hd [] labs).

(** The training data of the end-to-end scenario: the spans mark "Alice" and
    "30" in the first document, "Bob" and "45" in the second. *)
Definition scenario_docs : list str :=
  [lit "Name: Alice Age: 30"; lit "Name: Bob Age: 45"].

Definition scenario_labels : list (list span) :=
  [[(6, 11); (17, 19)]; [(6, 9); (15, 17)]].

Definition scenario_page : str := lit "Name: Carol Age: 22".

(** Another iteration order: the reverse of the insertion order. *)
Definition reverse_insertion_order (l : list str) : list str :=
  rev (insertion_order l).

(** What construction leaves on the scenario's training data when sets iterate
    in insertion order, and in the reverse order. *)
Definition scenario_learned : wrapper :=
  mkWrapper scenario_labels scenario_docs 2
    [lit "Name: "; lit " Age: "] [lit " "; lit ""].

Definition scenario_learned_rev : wrapper :=
  mkWrapper scenario_labels scenario_docs 2
    [lit " "; lit ": "] [lit " Age:"; lit ""].

(** A training set of one document, "1--2" with the attributes "1" and "2",
    and the document "3-4" with the attributes "3" and "4" added to it. *)
Definition one_doc : list str := [lit "1--2"].
Definition one_doc_labels : list (list span) := [[(0, 1); (3, 4)]].

(** What construction leaves on these two training sets, and on the first
    document of the scenario alone (sets iterating in insertion order). *)
Definition one_doc_learned : wrapper :=
  mkWrapper one_doc_labels one_doc 2 [lit ""; lit "--"] [lit "-"; lit ""].


Definition scenario_first_learned : wrapper :=
  mkWrapper [[(6, 11); (17, 19)]] [lit "Name: Alice Age: 30"] 2
    [lit "Name: "; lit " Age: "] [lit " "; lit ""].

(** *** A labelled document *)

(** The spans of a document [P], read by attribute index. *)
Definition span_at (row : list span) (k : nat) : span := nth k row (0, 0).

(** The end of the attribute before attribute [k]; the start of the document
    for the first attribute. *)
Definition prev_end (row : list span) (k : nat) : Z :=
  match k with
  | O => 0
  | S k' => snd (span_at row k')
  end.

(** The labelled text of attribute [k], the text between the attribute before
    it and it, and the text between it and the attribute after it (up to the
    end of the document for the last attribute). *)
Definition attribute_of (P : str) (row : list span) (k : nat) : str :=
  slice P (Some (fst (span_at row k))) (Some (snd (span_at row k))).

Definition left_neighbor_of (P : str) (row : list span) (k : nat) : str :=
  slice P (Some (prev_end row k)) (Some (fst (span_at row k))).

Definition right_neighbor_of (P : str) (row : list span) (k : nat) : str :=
  slice P (Some (snd (span_at row k)))
    (if (S k <? length row)%nat then Some (fst (span_at row (S k))) else None).

(** The spans are sorted, do not overlap and lie inside the document. *)
Definition ordered (P : str) (row : list span) : Prop :=
  forall k, (k < length row)%nat ->
    prev_end row k <= fst (span_at row k)
    /\ fst (span_at row k) <= snd (span_at row k)
    /\ snd (span_at row k) <= len P.

(** In the document the delimiters point at the labelled spans only: [l] is
    not found in the left neighbour of attribute [k] before the occurrence
    that ends it, and [r] is not found in the attribute followed by its right
    neighbour before the end of the attribute. *)
Definition unambiguous (P : str) (row : list span) (k : nat) (l r : str)
  : Prop :=
  len (left_neighbor_of P row k) - len l <= find (left_neighbor_of P row k) l
  /\ len (attribute_of P row k)
     <= find (attribute_of P row k ++ right_neighbor_of P row k) r.

(** Two training pages of one template, with their labels and what
    construction leaves on them (sets iterating in insertion order). *)
Definition html_docs : list str :=
  [lit "<b>Alice</b><i>30</i>"; lit "<b>Bob</b><i>45</i>"].

Definition html_labels : list (list span) :=
  [[(3, 8); (15, 17)]; [(3, 6); (13, 15)]].

Definition html_learned : wrapper :=
  mkWrapper html_labels html_docs 2 [lit "<b>"; lit "</b><i>"] [lit "<"; lit "<"].

(** A training set of one page whose head "aaa" holds its own suffix "aa"
    twice, and what construction leaves on it when sets iterate in reverse
    insertion order. *)
Definition overlap_docs : list str := [lit "aaaX--"].
Definition overlap_labels : list (list span) := [[(3, 4)]].

Definition overlap_learned : wrapper :=
  mkWrapper overlap_labels overlap_docs 1 [lit "aa"] [lit "-"].

(** Two computations of a set raise the same exception or return sets with
    the same elements. *)
Definition same_members (r r' : result (list str)) : Prop :=
  match r, r' with
  | Ok a, Ok b => forall x, In x a <-> In x b
  | Raise e, Raise e' => e = e'
  | _, _ => False
  end.

(** ** The objects behind the wrapper

    The lists of the class are mutable objects that several names can share:
    [self.left] and [self.right] are references to two lists, and [execLR]
    builds its result by [attr.append].  The store below holds these objects,
    a reference being a position in it, so that what a call changes is read
    off the store it leaves and not fixed by the shape of a function. *)

Inductive object :=
| StrList (items : list str)
| Labels (rows : list (list span))
| Instance (labels_ref examples_ref : nat) (num_attributes : Z)
           (left_ref right_ref : nat).

Definition store := list object.

(** A new object, at a reference no object of the store has. *)
Definition alloc (st : store) (o : object) : store * nat :=
  (st ++ [o], length st).

(** The list of strings a reference leads to. *)
Definition list_at (st : store) (a : nat) : option (list str) :=
  match nth_error st a with
  | Some (StrList items) => Some items
  | _ => None
  end.

Definition labels_at (st : store) (a : nat) : option (list (list span)) :=
  match nth_error st a with
  | Some (Labels rows) => Some rows
  | _ => None
  end.

(** [a.append(v)]: the list at [a] is changed in place, for every name that
    refers to it. *)
Definition list_append (st : store) (a : nat) (v : str) : option store :=
  match list_at st a with
  | Some items => set_nth st a (StrList (items ++ [v]))
  | None => None
  end.

(** The object at [self] as a [wrapper]: each attribute with the value its
    reference leads to. *)
Definition wrapper_at (st : store) (self : nat) : option wrapper :=
  match nth_error st self with
  | Some (Instance labels_ref examples_ref n left_ref right_ref) =>
      match labels_at st labels_ref, list_at st examples_ref,
            list_at st left_ref, list_at st right_ref with
      | Some labs, Some docs, Some L, Some R => Some (mkWrapper labs docs n L R)
      | _, _, _, _ => None
      end
  | _ => None
  end.

(** [for (l, r) in zip(left, right): ...] of [execLR], at turn [i].  The two
    list iterators read their lists in the store as it is at that turn, the
    one of [left] first, and the loop ends when one of them is past the end of
    its list.  [fuel] bounds the turns; [None] is a loop out of fuel or a
    reference that leads to no list. *)
Fixpoint execLR_for (fuel : nat) (st : store) (left_ref right_ref attr : nat)
    (i : nat) (P : str) : option store :=
  match fuel with
  | O => None
  | S fuel' =>
      match list_at st left_ref, list_at st right_ref with
      | Some L, Some R =>
          match nth_error L i with
          | None => Some st
          | Some l =>
              match nth_error R i with
              | None => Some st
              | Some r =>
                  let l_idx := find P l + len l in
                  let r_idx := find (slice P (Some l_idx) None) r + l_idx in
                  match list_append st attr
                          (slice P (Some l_idx) (Some r_idx)) with
                  | Some st' =>
                      execLR_for fuel' st' left_ref right_ref attr (S i)
                        (slice P (Some r_idx) None)
                  | None => None
                  end
              end
          end
      | _, _ => None
      end
  end.

(** [self.execLR(P)] on the store: [attr = []] is a new list, the loop appends
    to it, and the call returns the reference to it with the store it
    leaves. *)
Definition execLR_call (fuel : nat) (st : store) (self : nat) (P : str)
  : option (store * nat) :=
  let (st0, attr) := alloc st (StrList []) in
  match nth_error st0 self with
  | Some (Instance _ _ _ left_ref right_ref) =>
      match execLR_for fuel st0 left_ref right_ref attr 0 P with
      | Some st' => Some (st', attr)
      | None => None
      end
  | _ => None
  end.

(** A store with the wrapper learned in the scenario: its labels, its
    documents, its two tables and the instance, at references 0 to 4. *)
Definition scenario_store : store :=
  [ Labels scenario_labels; StrList scenario_docs;
    StrList [lit "Name: "; lit " Age: "]; StrList [lit " "; lit ""];
    Instance 0 1 2 2 3 ].

(** * Facts about the primitives *)

Lemma len_nonneg {A} (l : list A) : 0 <= len l.
Proof. unfold len; lia. Qed.

Lemma len_app {A} (a b : list A) : len (a ++ b) = len a + len b.
Proof. unfold len; rewrite length_app; lia. Qed.

Lemma str_eqb_eq a b : str_eqb a b = true <-> a = b.
Proof.
  unfold str_eqb; destruct (list_eq_dec ascii_dec a b); split; congruence.
Qed.

Lemma startswith_iff s u : startswith s u = true <-> exists t, s = u ++ t.
Proof.
  revert s; induction u as [|c u IH]; intros s; simpl.
  - split; [intros _; now exists s | reflexivity].
  - destruct s as [|d s].
    + split; [discriminate | intros [t H]; discriminate].
    + rewrite andb_true_iff, Ascii.eqb_eq, IH; split.
      * intros [-> [t ->]]; now exists t.
      * intros [t H]; injection H as -> ->; split; [reflexivity | now exists t].
Qed.

Lemma startswith_app u t : startswith (u ++ t) u = true.
Proof. apply startswith_iff; now exists t. Qed.

Lemma startswith_nil s : startswith s [] = true.
Proof. now destruct s. Qed.

Lemma endswith_iff s u : endswith s u = true <-> exists p, s = p ++ u.
Proof.
  unfold endswith; rewrite andb_true_iff, Nat.leb_le, str_eqb_eq; split.
  - intros [Hle H]; exists (firstn (length s - length u) s).
    rewrite <- (firstn_skipn (length s - length u) s) at 1; now rewrite H.
  - intros [p ->]; rewrite length_app; split; [lia|].
    replace (length p + length u - length u)%nat with (length p + 0)%nat by lia.
    now rewrite skipn_app, Nat.add_0_r, skipn_all, Nat.sub_diag.
Qed.

(** [search] returns the lowest position of an occurrence. *)
Lemma search_Some s u i :
  search s u = Some i <->
  startswith (skipn i s) u = true /\ (i <= length s)%nat /\
  forall j, (j < i)%nat -> startswith (skipn j s) u = false.
Proof.
  revert i; induction s as [|d s IH]; intros i.
  - simpl; destruct (startswith [] u) eqn:E.
    + split.
      * intros [= <-]; simpl; repeat split; [assumption | lia | lia].
      * intros (_ & Hi & Hj); destruct i; [reflexivity|].
        simpl in Hi; lia.
    + split; [discriminate|].
      intros (H & Hi & _); simpl in Hi.
      assert (i = O) by lia; subst; simpl in H; congruence.
  - cbn [search]; destruct (startswith (d :: s) u) eqn:E.
    + split.
      * intros [= <-]; cbn [skipn]; repeat split; [assumption | lia | lia].
      * intros (_ & _ & Hj); destruct i; [reflexivity|].
        specialize (Hj O ltac:(lia)); cbn [skipn] in Hj; congruence.
    + destruct (search s u) as [n|] eqn:Es; cbn [option_map].
      * destruct (proj1 (IH n) eq_refl) as (H1 & H2 & H3); split.
        -- intros [= <-]; cbn [skipn length]; repeat split; [assumption | lia |].
           intros [|j] Hj; [exact E | cbn [skipn]; apply H3; lia].
        -- intros (K1 & K2 & K3); destruct i as [|i]; [cbn in K1; congruence|].
           f_equal; cbn [skipn length] in *.
           assert (Some n = Some i) as [= ->]; [|reflexivity].
           apply IH; repeat split; [assumption | lia |].
           intros j Hj; apply (K3 (S j)); lia.
      * split; [discriminate|].
        intros (K1 & K2 & K3); destruct i as [|i]; [cbn in K1; congruence|].
        cbn [skipn length] in *.
        assert (@None nat = Some i) as Hs; [|congruence].
        apply IH; repeat split; [assumption | lia |].
        intros j Hj; apply (K3 (S j)); lia.
Qed.

Lemma search_None s u :
  search s u = None <-> forall j, startswith (skipn j s) u = false.
Proof.
  induction s as [|d s IH].
  - simpl; destruct (startswith [] u) eqn:E; split; try discriminate.
    + intros H; specialize (H O); simpl in H; congruence.
    + intros _ j; now rewrite skipn_nil.
    + reflexivity.
  - cbn [search]; destruct (startswith (d :: s) u) eqn:E.
    + split; [discriminate|].
      intros H; specialize (H O); cbn in H; cbn in E; congruence.
    + destruct (search s u) eqn:Es; cbn [option_map].
      * split; [discriminate|]; intros H.
        assert (Some n = None); [|discriminate].
        apply IH; intros j; apply (H (S j)).
      * split; [|reflexivity]; intros _ [|j]; [exact E|].
        cbn [skipn]; now apply IH.
Qed.

Lemma occurs_iff u s :
  Occurs u s <-> exists j, startswith (skipn j s) u = true.
Proof.
  split.
  - intros (x & y & ->); exists (length x).
    rewrite skipn_app, skipn_all, Nat.sub_diag; simpl.
    apply startswith_app.
  - intros [j H]; apply startswith_iff in H as [t H].
    exists (firstn j s), t; rewrite <- H; symmetry; apply firstn_skipn.
Qed.

Lemma contains_iff u s : contains u s = true <-> Occurs u s.
Proof.
  unfold contains; rewrite occurs_iff; destruct (search s u) eqn:E.
  - apply search_Some in E as (H & _); split; [now exists n | reflexivity].
  - split; [discriminate|]; intros [j H].
    rewrite search_None in E; now rewrite E in H.
Qed.

Lemma contains_false_iff u s : contains u s = false <-> ~ Occurs u s.
Proof.
  rewrite <- contains_iff; destruct (contains u s); split; congruence.
Qed.

Lemma contains_nil s : contains [] s = true.
Proof. apply contains_iff; exists [], s; reflexivity. Qed.


(** *** Slices *)

Lemma slice_from {A} (s : list A) i :
  0 <= i -> slice s (Some i) None = skipn (Z.to_nat i) s.
Proof.
  intros Hi; unfold slice, clamp.
  destruct (i <? 0) eqn:E; [lia|].
  destruct (Z.min_spec i (len s)) as [[Hlt ->]|[Hge ->]].
  - apply firstn_all2; rewrite length_skipn; unfold len in *; lia.
  - rewrite Z.sub_diag; simpl. symmetry; apply skipn_all2; unfold len in *; lia.
Qed.

Lemma slice_to {A} (s : list A) j :
  0 <= j -> slice s None (Some j) = firstn (Z.to_nat j) s.
Proof.
  intros Hj; unfold slice, clamp; simpl.
  destruct (j <? 0) eqn:E; [lia|]; rewrite Z.sub_0_r.
  destruct (Z.min_spec j (len s)) as [[Hlt ->]|[Hge ->]]; [reflexivity|].
  unfold len in *; rewrite !firstn_all2; [reflexivity | lia | lia].
Qed.

Lemma slice_range {A} (s : list A) i j :
  0 <= i -> 0 <= j ->
  slice s (Some i) (Some j) =
  firstn (Z.to_nat j - Z.to_nat i) (skipn (Z.to_nat i) s).
Proof.
  intros Hi Hj; unfold slice, clamp.
  destruct (i <? 0) eqn:Ei; [lia|]; destruct (j <? 0) eqn:Ej; [lia|].
  pose proof (len_nonneg s) as Hn.
  destruct (Z.min_spec i (len s)) as [[Hlt ->]|[Hge ->]];
    destruct (Z.min_spec j (len s)) as [[Hlt' ->]|[Hge' ->]].
  - f_equal; lia.
  - rewrite !firstn_all2; [reflexivity | |]; rewrite length_skipn;
      unfold len in *; lia.
  - rewrite (skipn_all2 s (n := Z.to_nat i)) by (unfold len in *; lia).
    rewrite (skipn_all2 s (n := Z.to_nat (len s))) by (unfold len in *; lia).
    now rewrite !firstn_nil.
  - rewrite (skipn_all2 s (n := Z.to_nat i)) by (unfold len in *; lia).
    rewrite (skipn_all2 s (n := Z.to_nat (len s))) by (unfold len in *; lia).
    now rewrite !firstn_nil.
Qed.

Lemma slice_drop_suffix (p u : str) :
  u <> [] -> slice (p ++ u) None (Some (- len u)) = p.
Proof.
  intros Hu; unfold slice, clamp.
  assert (0 < len u) by (destruct u; [congruence | unfold len; simpl; lia]).
  pose proof (len_nonneg p).
  destruct (- len u <? 0) eqn:E; [|lia].
  rewrite len_app, Z.max_r, Z.sub_0_r by lia; simpl.
  replace (Z.to_nat (- len u + (len p + len u))) with (length p + 0)%nat
    by (unfold len; lia).
  now rewrite firstn_app_2, firstn_O, app_nil_r.
Qed.

(** *** [ProperSuffix] *)

Lemma ProperSuffix_nil s : ProperSuffix [] s = false.
Proof.
  unfold ProperSuffix; rewrite contains_nil; apply andb_false_r.
Qed.

Lemma ProperSuffix_iff u s :
  ProperSuffix u s = true <-> exists p, s = p ++ u /\ ~ Occurs u p.
Proof.
  destruct u as [|c u].
  - rewrite ProperSuffix_nil; split; [discriminate|].
    intros (p & _ & H); exfalso; apply H; exists p, []; now rewrite app_nil_r.
  - unfold ProperSuffix; rewrite andb_true_iff, negb_true_iff, endswith_iff.
    split.
    + intros [[p ->] H]; exists p; split; [reflexivity|].
      rewrite slice_drop_suffix in H by discriminate.
      now apply contains_false_iff.
    + intros (p & -> & H); split; [now exists p|].
      rewrite slice_drop_suffix by discriminate.
      now apply contains_false_iff.
Qed.

(** C5.  [ProperSuffix u s] is [True] exactly when [s] ends with [u] and [u]
    does not occur in what is left of [s] once that final occurrence is
    taken off; [ProperSuffix("cde", "abcde")] is [True] and
    [ProperSuffix("de", "abcdede")] is [False]. *)
Theorem ProperSuffix_spec :
  (forall u s : str,
      ProperSuffix u s = true <-> exists p, s = p ++ u /\ ~ Occurs u p)
  /\ ProperSuffix (lit "cde") (lit "abcde") = true
  /\ ProperSuffix (lit "de") (lit "abcdede") = false.
Proof.
  split; [exact ProperSuffix_iff | split; reflexivity].
Qed.


(** * Construction with no training example *)

(** C7.  Called with an empty label sequence, [__init__] raises [ValueError]
    whatever the paths and the files are: the test comes before any document
    is read and before any delimiter is searched, and no wrapper results. *)
Theorem init_no_examples :
  forall (set_of_list : list str -> list str) (fs : str -> result str)
         (examples_file_paths : list str),
    init set_of_list fs examples_file_paths [] = Raise ValueError.
Proof. reflexivity. Qed.

(** * Extraction *)

Lemma execLR_step_fst attr P lr :
  fst (execLR_step (attr, P) lr) = attr ++ fst (execLR_step ([], P) lr).
Proof. destruct lr as [l r]; reflexivity. Qed.

Lemma execLR_step_snd attr P lr :
  snd (execLR_step (attr, P) lr) = snd (execLR_step ([], P) lr).
Proof. destruct lr as [l r]; reflexivity. Qed.

Lemma execLR_loop_acc lrs attr P :
  fold_left execLR_step lrs (attr, P) =
  (attr ++ fst (fold_left execLR_step lrs ([], P)),
   snd (fold_left execLR_step lrs ([], P))).
Proof.
  revert attr P; induction lrs as [|[l r] lrs IH]; intros attr P.
  - simpl; now rewrite app_nil_r.
  - cbn [fold_left execLR_step]; rewrite IH; symmetry; rewrite IH; simpl.
    now rewrite <- app_assoc.
Qed.

Lemma execLR_loop_length lrs attr P :
  length (fst (fold_left execLR_step lrs (attr, P))) =
  (length attr + length lrs)%nat.
Proof.
  revert attr P; induction lrs as [|[l r] lrs IH]; intros attr P.
  - simpl; lia.
  - cbn [fold_left execLR_step]; rewrite IH, length_app; simpl; lia.
Qed.

Lemma nth_error_combine {A B} (a : list A) (b : list B) k x y :
  nth_error a k = Some x -> nth_error b k = Some y ->
  nth_error (combine a b) k = Some (x, y).
Proof.
  revert b k; induction a as [|x0 a IH]; intros [|y0 b] [|k]; simpl;
    try discriminate.
  - now intros [= ->] [= ->].
  - apply IH.
Qed.

Lemma execLR_loop_nth lrs k l r P :
  nth_error lrs k = Some (l, r) ->
  fst (fold_left execLR_step lrs ([], P)) <> [] /\
  nth_error (fst (fold_left execLR_step lrs ([], P))) k =
  Some (let Q := snd (fold_left execLR_step (firstn k lrs) ([], P)) in
        let l_idx := find Q l + len l in
        let r_idx := find (slice Q (Some l_idx) None) r + l_idx in
        slice Q (Some l_idx) (Some r_idx)).
Proof.
  revert k P; induction lrs as [|[l0 r0] lrs IH]; intros [|k] P; simpl;
    try discriminate.
  - intros [= -> ->]; rewrite execLR_loop_acc; simpl; split;
      [discriminate | reflexivity].
  - intros H; rewrite execLR_loop_acc; simpl; split; [discriminate|].
    rewrite (execLR_loop_acc (firstn k lrs)); simpl.
    now apply IH.
Qed.

(** C3, as the code has it.  [execLR] has no miss indicator and never
    aborts: it returns one string for each pair of delimiters.  The value of
    index [k] is the slice of the page in front of the scan between
    [l_idx = find(left[k]) + len(left[k])] and [r_idx], computed the same way
    from [right[k]]; where [left[k]] does not occur [find] gives [-1], so that
    [l_idx] is [len(left[k]) - 1], and where [right[k]] does not occur after
    [l_idx], [r_idx] is [l_idx - 1]. *)
Theorem execLR_no_miss_indicator :
  forall (self : wrapper) (P : str),
    length (fst (execLR self P))
    = Nat.min (length (left self)) (length (right self))
    /\ forall k l r,
        nth_error (left self) k = Some l ->
        nth_error (right self) k = Some r ->
        let Q := cursor self P k in
        let l_idx := find Q l + len l in
        let r_idx := find (slice Q (Some l_idx) None) r + l_idx in
        nth_error (fst (execLR self P)) k
        = Some (slice Q (Some l_idx) (Some r_idx))
        /\ (contains l Q = false -> l_idx = len l - 1)
        /\ (contains r (slice Q (Some l_idx) None) = false ->
            r_idx = l_idx - 1).
Proof.
  intros self P; split.
  - unfold execLR; cbn [fst]; rewrite execLR_loop_length, length_combine.
    reflexivity.
  - intros k l r Hl Hr Q l_idx r_idx; repeat split.
    + unfold execLR; cbn [fst].
      apply (execLR_loop_nth _ k l r P), nth_error_combine; assumption.
    + unfold l_idx, find, contains; destruct (search Q l); [discriminate | lia].
    + unfold r_idx, find, contains.
      destruct (search (slice Q (Some l_idx) None) r); [discriminate | lia].
Qed.

(** C3 fails as stated: with the delimiters of the end-to-end scenario and a
    page in which [left[0]] does not occur, attribute 0 comes back as the
    piece of text "name: Carol", with nothing that marks a miss. *)
Lemma execLR_miss_is_garbled :
  contains (lit "Name: ") other_template_page = false
  /\ find other_template_page (lit "Name: ") = -1
  /\ fst (execLR scenario_table other_template_page)
     = [lit "name: Carol"; lit ""].
Proof. repeat split. Qed.


(** * Facts about the control structures *)

Lemma bind_Ok {A B} (m : result A) (f : A -> result B) b :
  bind m f = Ok b <-> exists a, m = Ok a /\ f a = Ok b.
Proof.
  destruct m as [a|e]; simpl; split.
  - intros H; now exists a.
  - now intros (a' & [= <-] & H).
  - discriminate.
  - intros (a' & H & _); discriminate.
Qed.

Lemma mapM_Ok {A B} (f : A -> result B) l ys :
  mapM f l = Ok ys <-> Forall2 (fun x y => f x = Ok y) l ys.
Proof.
  revert ys; induction l as [|x l IH]; intros ys; simpl.
  - split; [intros [= <-]; constructor | intros H; now inversion H].
  - rewrite bind_Ok; split.
    + intros (y & Hy & H); apply bind_Ok in H as (ys' & H & [= <-]).
      constructor; [assumption | now apply IH].
    + intros H; inversion H as [|x' y l' ys' Hy Hys]; subst.
      exists y; split; [assumption|].
      apply bind_Ok; exists ys'; split; [now apply IH | reflexivity].
Qed.

Lemma mapM_total {A B} (f : A -> result B) l :
  (forall x, In x l -> exists y, f x = Ok y) -> exists ys, mapM f l = Ok ys.
Proof.
  induction l as [|x l IH]; intros H; simpl.
  - now exists [].
  - destruct (H x (or_introl eq_refl)) as [y ->].
    destruct IH as [ys ->]; [intros z Hz; apply H; now right|].
    now exists (y :: ys).
Qed.

Lemma mapM_In {A B} (f : A -> result B) l ys y :
  mapM f l = Ok ys -> (In y ys <-> exists x, In x l /\ f x = Ok y).
Proof.
  rewrite mapM_Ok; induction 1 as [|x y' l ys Hy _ IH]; simpl.
  - split; [tauto | intros (x & [] & _)].
  - rewrite IH; split.
    + intros [<-|(x' & Hx & H)]; [exists x; tauto | exists x'; tauto].
    + intros (x' & [<-|Hx] & H); [left; congruence | right; now exists x'].
Qed.

Lemma mapM_ext_in {A B} (f g : A -> result B) l :
  (forall x, In x l -> f x = g x) -> mapM f l = mapM g l.
Proof.
  induction l as [|x l IH]; intros H; simpl; [reflexivity|].
  rewrite (H x (or_introl eq_refl)), IH; [reflexivity|].
  intros z Hz; apply H; now right.
Qed.

Lemma mapM_app_Ok {A B} (f : A -> result B) l1 l2 ys :
  mapM f (l1 ++ l2) = Ok ys ->
  exists ys1 ys2,
    mapM f l1 = Ok ys1 /\ mapM f l2 = Ok ys2 /\ ys = ys1 ++ ys2.
Proof.
  revert ys; induction l1 as [|x l1 IH]; intros ys; simpl.
  - intros H; now exists [], ys.
  - rewrite bind_Ok; intros (y & -> & H).
    apply bind_Ok in H as (ys' & H & [= <-]).
    destruct (IH _ H) as (ys1 & ys2 & -> & -> & ->).
    now exists (y :: ys1), ys2.
Qed.

(** *** [first_valid] *)

Lemma first_valid_Some valid cands u :
  first_valid valid cands = Ok (Some u) ->
  exists pre post,
    cands = pre ++ u :: post
    /\ (forall v, In v pre -> valid v = Ok false)
    /\ valid u = Ok true.
Proof.
  induction cands as [|c cands IH]; simpl; [discriminate|].
  destruct (valid c) as [[|]|e] eqn:E; simpl; [| |discriminate].
  - intros [= <-]; exists [], cands; repeat split; [|assumption].
    intros v [].
  - intros H; destruct (IH H) as (pre & post & -> & Hpre & Hu).
    exists (c :: pre), post; repeat split; [|assumption].
    intros v [<-|Hv]; [assumption | now apply Hpre].
Qed.

Lemma first_valid_None valid cands :
  first_valid valid cands = Ok None <->
  forall v, In v cands -> valid v = Ok false.
Proof.
  induction cands as [|c cands IH]; simpl.
  - split; [intros _ v [] | reflexivity].
  - destruct (valid c) as [[|]|e] eqn:E; simpl.
    + split; [discriminate|].
      intros H; specialize (H c (or_introl eq_refl)); congruence.
    + rewrite IH; split.
      * intros H v [<-|Hv]; [assumption | now apply H].
      * intros H v Hv; apply H; now right.
    + split; [discriminate|].
      intros H; specialize (H c (or_introl eq_refl)); congruence.
Qed.

Lemma first_valid_total valid cands :
  (forall v, In v cands -> exists b, valid v = Ok b) ->
  exists found, first_valid valid cands = Ok found.
Proof.
  induction cands as [|c cands IH]; intros H; simpl; [now exists None|].
  destruct (H c (or_introl eq_refl)) as [[|] ->]; simpl.
  - now exists (Some c).
  - apply IH; intros v Hv; apply H; now right.
Qed.

Lemma first_valid_ext_in valid valid' cands :
  (forall v, In v cands -> valid v = valid' v) ->
  first_valid valid cands = first_valid valid' cands.
Proof.
  induction cands as [|c cands IH]; intros H; simpl; [reflexivity|].
  rewrite (H c (or_introl eq_refl)), IH; [reflexivity|].
  intros v Hv; apply H; now right.
Qed.

(** *** Indexing *)

Lemma index_nonneg {A} (l : list A) i :
  0 <= i -> index l i = match nth_error l (Z.to_nat i) with
                        | Some x => Ok x
                        | None => Raise IndexError
                        end.
Proof.
  intros Hi; unfold index.
  destruct (i <? 0) eqn:E; [lia|]; now rewrite E.
Qed.

Lemma index_last {A} (l : list A) :
  l <> [] ->
  index l (-1) = match nth_error l (length l - 1) with
                 | Some x => Ok x
                 | None => Raise IndexError
                 end.
Proof.
  intros Hl; unfold index.
  assert (0 < len l) by (destruct l; [congruence | unfold len; simpl; lia]).
  change (-1 <? 0) with true; cbv iota.
  destruct (-1 + len l <? 0) eqn:E; [lia|].
  replace (Z.to_nat (-1 + len l)) with (length l - 1)%nat
    by (unfold len; lia).
  reflexivity.
Qed.

Lemma set_nth_Some {A} (l : list A) n v :
  (n < length l)%nat -> exists l', set_nth l n v = Some l'.
Proof.
  revert n; induction l as [|x l IH]; intros [|n]; simpl; try lia.
  - now eexists.
  - intros H; destruct (IH n) as [l' ->]; [lia|]; now eexists.
Qed.

Lemma set_nth_spec {A} (l l' : list A) n v :
  set_nth l n v = Some l' ->
  length l' = length l
  /\ nth_error l' n = Some v
  /\ forall j, j <> n -> nth_error l' j = nth_error l j.
Proof.
  revert l' n; induction l as [|x l IH]; intros l' [|n]; simpl;
    try discriminate.
  - intros [= <-]; repeat split; intros [|j] Hj; [congruence | reflexivity].
  - destruct (set_nth l n v) as [l1|] eqn:E; simpl; [|discriminate].
    intros [= <-]; destruct (IH _ _ E) as (H1 & H2 & H3); simpl.
    repeat split; [now rewrite H1 | assumption |].
    intros [|j] Hj; [reflexivity | apply H3; congruence].
Qed.

Lemma setitem_spec {A} (l l' : list A) i v :
  0 <= i -> setitem l i v = Ok l' ->
  length l' = length l
  /\ nth_error l' (Z.to_nat i) = Some v
  /\ forall j, j <> Z.to_nat i -> nth_error l' j = nth_error l j.
Proof.
  intros Hi; unfold setitem.
  destruct (i <? 0) eqn:E; [lia|]; rewrite E.
  destruct (set_nth l (Z.to_nat i) v) eqn:Es; [|discriminate].
  intros [= <-]; now apply set_nth_spec.
Qed.

Lemma setitem_total {A} (l : list A) i v :
  0 <= i < len l -> exists l', setitem l i v = Ok l'.
Proof.
  intros Hi; unfold setitem.
  destruct (i <? 0) eqn:E; [lia|]; rewrite E.
  destruct (set_nth_Some l (Z.to_nat i) v) as [l' ->]; [unfold len in Hi; lia|].
  now exists l'.
Qed.

Lemma in_range n k : In k (range n) <-> 0 <= k < n.
Proof.
  unfold range; rewrite in_map_iff; split.
  - intros (j & <- & H); apply in_seq in H; lia.
  - intros H; exists (Z.to_nat k); split; [lia | apply in_seq; lia].
Qed.

Lemma NoDup_range n : NoDup (range n).
Proof.
  unfold range; apply Finite.Injective_map_NoDup; [|apply seq_NoDup].
  intros a b; apply Nat2Z.inj.
Qed.

Lemma length_range n : length (range n) = Z.to_nat n.
Proof. unfold range; now rewrite length_map, length_seq. Qed.

Lemma in_enumerate {A} (l : list A) i x :
  In (i, x) (enumerate l) <-> 0 <= i /\ nth_error l (Z.to_nat i) = Some x.
Proof.
  unfold enumerate, range, len; rewrite Nat2Z.id.
  assert (G : forall s, In (i, x) (combine (map Z.of_nat (seq s (length l))) l)
              <-> Z.of_nat s <= i /\ nth_error l (Z.to_nat i - s) = Some x).
  { induction l as [|y l IH]; intros s; simpl.
    - split; [tauto|]; intros [_ H]; now destruct (Z.to_nat i - s)%nat.
    - rewrite IH; split.
      + intros [[= <- <-]|[H1 H2]].
        * split; [lia|]; now replace (Z.to_nat (Z.of_nat s) - s)%nat with O by lia.
        * split; [lia|].
          replace (Z.to_nat i - s)%nat with (S (Z.to_nat i - S s)) by lia.
          exact H2.
      + intros [H1 H2]; destruct (Z.eq_dec i (Z.of_nat s)) as [->|Hne].
        * left; replace (Z.to_nat (Z.of_nat s) - s)%nat with O in H2 by lia.
          simpl in H2; congruence.
        * right; split; [lia|].
          replace (Z.to_nat i - s)%nat with (S (Z.to_nat i - S s)) in H2 by lia.
          exact H2. }
  rewrite G, Nat.sub_0_r; simpl; tauto.
Qed.

(** *** The loop over the attributes *)

Section TableLoop.

(** A search that fills one table: [inner] is the inner loop, [get] and [set]
    read and replace the table. *)
Variable inner : wrapper -> Z -> result (option str).
Variable get : wrapper -> list str.
Variable set : wrapper -> list str -> wrapper.
Variable step : wrapper -> Z -> result wrapper.

Hypothesis get_set : forall s l, get (set s l) = l.
Hypothesis set_set : forall s l l', set (set s l) l' = set s l'.
Hypothesis set_get : forall s, set s (get s) = s.
Hypothesis inner_set : forall s l k, inner (set s l) k = inner s k.
Hypothesis step_eq : forall s k,
  step s k =
  (found <- inner s k ;;
   match found with
   | Some u => l <- setitem (get s) k u ;; Ok (set s l)
   | None => Ok s
   end).

Lemma table_loop_spec ks :
  NoDup ks -> (forall k, In k ks -> 0 <= k) ->
  forall self self',
    for_each step ks self = Ok self' ->
    self' = set self (get self')
    /\ length (get self') = length (get self)
    /\ (forall k, In k ks ->
        exists found,
          inner self k = Ok found
          /\ nth_error (get self') (Z.to_nat k)
             = match found with
               | Some u => Some u
               | None => nth_error (get self) (Z.to_nat k)
               end)
    /\ (forall j, ~ In (Z.of_nat j) ks ->
        nth_error (get self') j = nth_error (get self) j).
Proof.
  induction 1 as [|k0 ks Hk0 Hnd IH]; intros Hpos self self'; simpl.
  - intros [= <-]; repeat split; [now rewrite set_get | intros k [] ].
  - rewrite bind_Ok; intros (self1 & Hstep & Hloop).
    assert (Hk0' : 0 <= k0) by (apply Hpos; now left).
    destruct (IH (fun k Hk => Hpos k (or_intror Hk)) _ _ Hloop)
      as (E' & Hlen & Hin & Hout); clear IH.
    rewrite step_eq in Hstep; apply bind_Ok in Hstep as (found & Hfound & Hstep).
    assert (Hk0j : ~ In (Z.of_nat (Z.to_nat k0)) ks) by (rewrite Z2Nat.id; assumption).
    destruct found as [u|].
    + apply bind_Ok in Hstep as (l & Hset & [= <-]).
      destruct (setitem_spec _ _ _ _ Hk0' Hset) as (Hl1 & Hl2 & Hl3).
      rewrite get_set in *; rewrite set_set in E'.
      repeat split; [assumption | congruence | |].
      * intros k [<-|Hk].
        -- exists (Some u); split; [assumption|].
           now rewrite (Hout _ Hk0j).
        -- destruct (Hin k Hk) as (found & Hf & Hn).
           rewrite inner_set in Hf; exists found; split; [assumption|].
           rewrite Hn; destruct found; [reflexivity|].
           apply Hl3; intros Heq.
           apply Hk0; replace k0 with k; [assumption|].
           specialize (Hpos k (or_intror Hk)); lia.
      * intros j Hj; rewrite Hout by tauto.
        apply Hl3; intros ->; apply Hj; left; lia.
    + injection Hstep as <-.
      repeat split; [assumption | assumption | |].
      * intros k [<-|Hk]; [|now apply Hin].
        exists None; split; [assumption | now apply Hout].
      * intros j Hj; apply Hout; tauto.
Qed.

Lemma table_loop_total ks :
  forall self,
    (forall k, In k ks ->
       0 <= k < len (get self) /\ exists found, inner self k = Ok found) ->
    exists self', for_each step ks self = Ok self'.
Proof.
  induction ks as [|k0 ks IH]; intros self H; simpl; [now exists self|].
  destruct (H k0 (or_introl eq_refl)) as (Hk0 & found & Hfound).
  rewrite step_eq, Hfound; simpl; destruct found as [u|].
  - destruct (setitem_total (get self) k0 u Hk0) as [l Hl]; rewrite Hl; simpl.
    apply IH; intros k Hk; rewrite get_set, inner_set.
    destruct (setitem_spec _ _ _ _ (proj1 Hk0) Hl) as (Hlen & _).
    unfold len in *; rewrite Hlen; apply H; now right.
  - apply IH; intros k Hk; apply H; now right.
Qed.

End TableLoop.

(** * The learner *)

Lemma with_left_left s : with_left s (left s) = s.
Proof. now destruct s. Qed.

Lemma with_right_right s : with_right s (right s) = s.
Proof. now destruct s. Qed.

Section LearnerFacts.

Variable set_of_list : list str -> list str.
Hypothesis set_of_list_In : forall l x, In x (set_of_list l) <-> In x l.

Lemma GetValidLeft_spec self self' :
  GetValidLeft set_of_list self = Ok self' ->
  self' = with_left self (left self')
  /\ length (left self') = length (left self)
  /\ forall k, 0 <= k < num_attributes self ->
       exists found,
         GetValidLeft_inner set_of_list self k = Ok found
         /\ nth_error (left self') (Z.to_nat k)
            = match found with
              | Some u => Some u
              | None => nth_error (left self) (Z.to_nat k)
              end.
Proof.
  intros H.
  assert (Hpos : forall k, In k (range (num_attributes self)) -> 0 <= k)
    by (intros k Hk; apply in_range in Hk; lia).
  destruct (table_loop_spec (GetValidLeft_inner set_of_list) left with_left
              (GetValidLeft_step set_of_list)
              (fun _ _ => eq_refl) (fun _ _ _ => eq_refl) with_left_left
              (fun _ _ _ => eq_refl) (fun _ _ => eq_refl)
              _ (NoDup_range _) Hpos self self' H)
    as (H1 & H2 & H3 & _).
  repeat split; [assumption | assumption |].
  intros k Hk; apply H3, in_range, Hk.
Qed.

Lemma GetValidRight_spec self self' :
  GetValidRight set_of_list self = Ok self' ->
  self' = with_right self (right self')
  /\ length (right self') = length (right self)
  /\ forall k, 0 <= k < num_attributes self ->
       exists found,
         GetValidRight_inner set_of_list self k = Ok found
         /\ nth_error (right self') (Z.to_nat k)
            = match found with
              | Some u => Some u
              | None => nth_error (right self) (Z.to_nat k)
              end.
Proof.
  intros H.
  assert (Hpos : forall k, In k (range (num_attributes self)) -> 0 <= k)
    by (intros k Hk; apply in_range in Hk; lia).
  destruct (table_loop_spec (GetValidRight_inner set_of_list) right with_right
              (GetValidRight_step set_of_list)
              (fun _ _ => eq_refl) (fun _ _ _ => eq_refl) with_right_right
              (fun _ _ _ => eq_refl) (fun _ _ => eq_refl)
              _ (NoDup_range _) Hpos self self' H)
    as (H1 & H2 & H3 & _).
  repeat split; [assumption | assumption |].
  intros k Hk; apply H3, in_range, Hk.
Qed.

Lemma nth_error_repeat {A} (x : A) n j :
  (j < n)%nat -> nth_error (repeat x n) j = Some x.
Proof.
  revert j; induction n as [|n IH]; intros [|j] H; simpl; try lia;
    [reflexivity | apply IH; lia].
Qed.

(** What [__init__] leaves in the object. *)
Lemma learn_spec docs labs w :
  learn set_of_list docs labs = Ok w ->
  exists row0,
    index labs 0 = Ok row0
    /\ labels w = labs /\ examples w = docs /\ num_attributes w = len row0
    /\ length (left w) = length row0 /\ length (right w) = length row0
    /\ forall k, 0 <= k < len row0 ->
         (exists found,
            GetValidLeft_inner set_of_list w k = Ok found
            /\ nth_error (left w) (Z.to_nat k)
               = Some match found with Some u => u | None => [] end)
         /\ (exists found,
            GetValidRight_inner set_of_list w k = Ok found
            /\ nth_error (right w) (Z.to_nat k)
               = Some match found with Some u => u | None => [] end).
Proof.
  unfold learn; rewrite bind_Ok; intros (row0 & Hrow & H).
  apply bind_Ok in H as (w1 & HL & HR).
  apply GetValidLeft_spec in HL as (E1 & L1 & HL).
  apply GetValidRight_spec in HR as (E2 & L2 & HR).
  exists row0; split; [assumption|].
  rewrite E2, E1; cbn.
  cbn in L1, L2; rewrite repeat_length in L1.
  rewrite E1 in L2; cbn in L2; rewrite repeat_length in L2.
  unfold len in *; rewrite Nat2Z.id in *.
  repeat split; try assumption.
  - destruct (HL k) as (found & Hf & Hn); [cbn; lia|].
    exists found; split; [exact Hf|].
    rewrite Hn; destruct found; [reflexivity|].
    cbn; apply nth_error_repeat; lia.
  - destruct (HR k) as (found & Hf & Hn); [rewrite E1; cbn; lia|].
    exists found; split; [rewrite E1 in Hf; exact Hf|].
    rewrite Hn; destruct found; [reflexivity|].
    rewrite E1; cbn; apply nth_error_repeat; lia.
Qed.

End LearnerFacts.

(** * The sets of the learner *)

Section SetFacts.

Variable set_of_list : list str -> list str.
Hypothesis set_of_list_In : forall l x, In x (set_of_list l) <-> In x l.

Lemma set_of_list_nonempty l : l <> [] -> set_of_list l <> [].
Proof.
  destruct l as [|x l]; [congruence|]; intros _ E.
  assert (H : In x (set_of_list (x :: l))) by (apply set_of_list_In; now left).
  now rewrite E in H.
Qed.

Lemma set_of_list_nil : set_of_list [] = [].
Proof.
  destruct (set_of_list []) as [|x l] eqn:E; [reflexivity|].
  assert (H : In x (set_of_list [])) by (rewrite E; now left).
  apply (proj1 (set_of_list_In _ _)) in H; destruct H.
Qed.

Lemma set_comprehension_In self f s :
  set_comprehension set_of_list self f = Ok s ->
  forall x,
    In x s <->
    exists i P, 0 <= i /\ nth_error (examples self) (Z.to_nat i) = Some P
                /\ f i P = Ok x.
Proof.
  unfold set_comprehension; rewrite bind_Ok; intros (xs & H & [= <-]) x.
  rewrite set_of_list_In, (mapM_In _ _ _ x H); split.
  - intros ([i P] & Hin & Hf); apply in_enumerate in Hin as [Hi Hn].
    now exists i, P.
  - intros (i & P & Hi & Hn & Hf); exists (i, P); split; [|assumption].
    now apply in_enumerate.
Qed.

Lemma set_comprehension_total self f :
  (forall i P, 0 <= i -> nth_error (examples self) (Z.to_nat i) = Some P ->
               exists x, f i P = Ok x) ->
  exists s, set_comprehension set_of_list self f = Ok s.
Proof.
  intros H; unfold set_comprehension.
  destruct (mapM_total (fun iP => f (fst iP) (snd iP))
              (enumerate (examples self))) as [xs ->].
  - intros [i P] Hin; apply in_enumerate in Hin as [Hi Hn]; now apply H.
  - now eexists.
Qed.

Lemma mapM_Ok_in {A B} (f : A -> result B) l ys x :
  mapM f l = Ok ys -> In x l -> exists y, f x = Ok y /\ In y ys.
Proof.
  rewrite mapM_Ok; induction 1 as [|x' y' l ys Hy _ IH]; intros [].
  - subst; exists y'; split; [assumption | now left].
  - destruct IH as (y & Hf & Hin); [assumption|].
    exists y; split; [assumption | now right].
Qed.

Lemma set_comprehension_nonempty self f s :
  examples self <> [] ->
  set_comprehension set_of_list self f = Ok s -> s <> [].
Proof.
  intros Hne H E; subst s.
  destruct (examples self) as [|P docs] eqn:Ed; [congruence|].
  pose proof (set_comprehension_In self f [] H) as Hin.
  unfold set_comprehension in H; apply bind_Ok in H as (xs & H & _).
  destruct (mapM_Ok_in _ _ _ (0, P) H) as (y & Hy & _).
  - apply in_enumerate; rewrite Ed; split; [lia | reflexivity].
  - apply (proj2 (Hin y)); exists 0, P; rewrite Ed; repeat split; [lia | assumption].
Qed.

(** *** Well-formed training data: no lookup raises *)

Lemma wf_index_0 docs labs :
  well_formed docs labs -> index labs 0 = Ok (hd [] labs).
Proof.
  intros (Hd & Hl & _).
  destruct labs as [|row0 rest]; [|reflexivity].
  destruct docs; [congruence | discriminate].
Qed.

Section WellFormed.

Variables (docs : list str) (labs : list (list span)) (self : wrapper).
Hypothesis WF : well_formed docs labs.
Hypothesis Hself : holds self docs labs.

Let n := num_attributes self.

Lemma wf_label i P k :
  0 <= i -> nth_error docs (Z.to_nat i) = Some P -> 0 <= k < n ->
  exists sp, label self i k = Ok sp.
Proof.
  intros Hi HP Hk; destruct WF as (Hd & Hl & Hrows).
  destruct Hself as (E1 & E2 & E3); unfold label, n in *; rewrite E1.
  rewrite index_nonneg by assumption.
  assert (Hlt : (Z.to_nat i < length labs)%nat)
    by (rewrite Hl; apply nth_error_Some; congruence).
  destruct (nth_error labs (Z.to_nat i)) as [row|] eqn:Er;
    [|apply nth_error_None in Er; lia].
  cbn; rewrite index_nonneg by lia.
  apply nth_error_In in Er; apply Hrows in Er.
  destruct (nth_error row (Z.to_nat k)) as [sp|] eqn:Ek; [now exists sp|].
  apply nth_error_None in Ek; rewrite E3 in Hk; unfold len in Hk; lia.
Qed.

Lemma wf_label_last i P :
  0 <= i -> nth_error docs (Z.to_nat i) = Some P -> 0 < n ->
  label self i (-1) = label self i (n - 1)
  /\ exists sp, label self i (-1) = Ok sp.
Proof.
  intros Hi HP Hn.
  destruct (wf_label i P (n - 1) Hi HP ltac:(lia)) as [sp Hsp].
  enough (label self i (-1) = label self i (n - 1)) as E
      by (split; [exact E | exists sp; congruence]).
  destruct WF as (Hd & Hl & Hrows).
  destruct Hself as (E1 & E2 & E3); unfold label, n in *; rewrite E1.
  destruct (index labs i) as [row|] eqn:Er; [cbn|reflexivity].
  rewrite index_nonneg in Er by assumption.
  destruct (nth_error labs (Z.to_nat i)) as [row'|] eqn:Er'; [|discriminate].
  injection Er as ->; apply nth_error_In in Er'; apply Hrows in Er'.
  rewrite E3 in *; unfold len in *.
  rewrite index_last by (destruct row; [simpl in Er'; lia | discriminate]).
  rewrite index_nonneg by lia.
  now replace (Z.to_nat (Z.of_nat (length (hd [] labs)) - 1))
    with (length row - 1)%nat by lia.
Qed.

Lemma wf_examples_nonempty : examples self <> [].
Proof. destruct Hself as (_ & -> & _); apply WF. Qed.

Lemma wf_attributes k :
  0 <= k < n -> exists s, attributes set_of_list self k = Ok s /\ s <> [].
Proof.
  intros Hk.
  destruct (set_comprehension_total self (fun i P =>
      b <- label self i k ;; e <- label self i k ;;
      Ok (slice P (Some (fst b)) (Some (snd e))))) as [s Hs].
  - intros i P Hi HP; rewrite (proj1 (proj2 Hself)) in HP.
    destruct (wf_label i P k Hi HP Hk) as [sp ->]; cbn; now eexists.
  - exists s; split; [exact Hs|].
    eapply set_comprehension_nonempty; [apply wf_examples_nonempty | exact Hs].
Qed.

Lemma wf_example_heads :
  0 < n -> exists s, example_heads set_of_list self = Ok s /\ s <> [].
Proof.
  intros Hn.
  destruct (set_comprehension_total self (fun i P =>
      e <- label self i 0 ;; Ok (slice P None (Some (fst e))))) as [s Hs].
  - intros i P Hi HP; rewrite (proj1 (proj2 Hself)) in HP.
    destruct (wf_label i P 0 Hi HP ltac:(lia)) as [sp ->]; cbn; now eexists.
  - exists s; split; [exact Hs|].
    eapply set_comprehension_nonempty; [apply wf_examples_nonempty | exact Hs].
Qed.

Lemma wf_example_tails :
  0 < n -> exists s, example_tails set_of_list self = Ok s /\ s <> [].
Proof.
  intros Hn.
  destruct (set_comprehension_total self (fun i P =>
      b <- label self i (-1) ;; Ok (slice P (Some (snd b)) None))) as [s Hs].
  - intros i P Hi HP; rewrite (proj1 (proj2 Hself)) in HP.
    destruct (wf_label_last i P Hi HP Hn) as (_ & sp & ->); cbn; now eexists.
  - exists s; split; [exact Hs|].
    eapply set_comprehension_nonempty; [apply wf_examples_nonempty | exact Hs].
Qed.

Lemma wf_Seps k :
  0 <= k < n - 1 -> exists s, Seps set_of_list self k = Ok s /\ s <> [].
Proof.
  intros Hk; unfold Seps; fold n.
  destruct (k =? n - 1) eqn:E; [lia|].
  destruct (set_comprehension_total self (fun i P =>
      b <- label self i k ;; e <- label self i (k + 1) ;;
      Ok (slice P (Some (snd b)) (Some (fst e))))) as [s Hs].
  - intros i P Hi HP; rewrite (proj1 (proj2 Hself)) in HP.
    destruct (wf_label i P k Hi HP ltac:(lia)) as [sp ->].
    destruct (wf_label i P (k + 1) Hi HP ltac:(lia)) as [sp' ->].
    cbn; now eexists.
  - exists s; split; [exact Hs|].
    eapply set_comprehension_nonempty; [apply wf_examples_nonempty | exact Hs].
Qed.

Lemma Seps_last : Seps set_of_list self (n - 1) = Ok [].
Proof. unfold Seps; fold n; now rewrite Z.eqb_refl. Qed.

Lemma wf_LeftNeighbors k :
  0 <= k < n -> exists s, LeftNeighbors set_of_list self k = Ok s /\ s <> [].
Proof.
  intros Hk; unfold LeftNeighbors; fold n.
  destruct (k =? 0) eqn:E.
  - rewrite Seps_last; cbn.
    destruct wf_example_heads as (s & -> & Hs); [lia|]; cbn.
    exists (union set_of_list [] s); split; [reflexivity|].
    now apply set_of_list_nonempty.
  - apply wf_Seps; lia.
Qed.

Lemma wf_RightNeighbors k :
  0 <= k < n -> exists s, RightNeighbors set_of_list self k = Ok s /\ s <> [].
Proof.
  intros Hk; unfold RightNeighbors; fold n.
  destruct (k =? n - 1) eqn:E.
  - rewrite Seps_last; cbn.
    destruct wf_example_tails as (s & -> & Hs); [lia|]; cbn.
    exists (union set_of_list [] s); split; [reflexivity|].
    now apply set_of_list_nonempty.
  - apply wf_Seps; lia.
Qed.

Lemma min_by_len_total s : s <> [] -> exists m, min_by_len s = Ok m.
Proof. destruct s; [congruence|]; intros _; now eexists. Qed.

Lemma wf_LeftCandidates k :
  0 <= k < n -> exists c, LeftCandidates set_of_list self k = Ok c.
Proof.
  intros Hk; unfold LeftCandidates.
  destruct (wf_LeftNeighbors k Hk) as (s & -> & Hs); cbn.
  destruct (min_by_len_total s Hs) as [m ->]; cbn; now eexists.
Qed.

Lemma wf_RightCandidates k :
  0 <= k < n -> exists c, RightCandidates set_of_list self k = Ok c.
Proof.
  intros Hk; unfold RightCandidates.
  destruct (wf_RightNeighbors k Hk) as (s & -> & Hs); cbn.
  destruct (min_by_len_total s Hs) as [m ->]; cbn; now eexists.
Qed.

Lemma wf_IsValidLeft u k :
  0 <= k < n -> exists b, IsValidLeft set_of_list self u k = Ok b.
Proof.
  intros Hk; unfold IsValidLeft.
  destruct (wf_LeftNeighbors k Hk) as (s & -> & Hs); cbn.
  destruct (negb (forallb (ProperSuffix u) s)); [now eexists|].
  destruct (k =? 0); [|now eexists].
  destruct wf_example_tails as (t & -> & _); [lia|]; cbn; now eexists.
Qed.

Lemma wf_IsValidRight u k :
  0 <= k < n -> exists b, IsValidRight set_of_list self u k = Ok b.
Proof.
  intros Hk; unfold IsValidRight.
  destruct (wf_attributes k Hk) as (s & -> & Hs); cbn.
  destruct (existsb (contains u) s); [now eexists|].
  destruct (wf_RightNeighbors k Hk) as (t & -> & _); cbn; now eexists.
Qed.

Lemma wf_GetValidLeft_inner k :
  0 <= k < n -> exists found, GetValidLeft_inner set_of_list self k = Ok found.
Proof.
  intros Hk; unfold GetValidLeft_inner.
  destruct (wf_LeftCandidates k Hk) as (c & ->); cbn.
  apply first_valid_total; intros v _; now apply wf_IsValidLeft.
Qed.

Lemma wf_GetValidRight_inner k :
  0 <= k < n -> exists found, GetValidRight_inner set_of_list self k = Ok found.
Proof.
  intros Hk; unfold GetValidRight_inner.
  destruct (wf_RightCandidates k Hk) as (c & ->); cbn.
  apply first_valid_total; intros v _; now apply wf_IsValidRight.
Qed.

End WellFormed.

(** On well-formed training data [__init__] returns an object. *)
Lemma learn_total docs labs :
  well_formed docs labs -> exists w, learn set_of_list docs labs = Ok w.
Proof.
  intros WF; unfold learn; rewrite (wf_index_0 docs labs WF); cbn.
  set (n := len (hd [] labs)); set (self := blank docs labs n).
  assert (Hself : holds self docs labs) by (repeat split).
  destruct (table_loop_total (GetValidLeft_inner set_of_list) left with_left
              (GetValidLeft_step set_of_list)
              (fun _ _ => eq_refl) (fun _ _ _ => eq_refl) (fun _ _ => eq_refl)
              (range n) self) as [w1 H1].
  { intros k Hk; apply in_range in Hk; split.
    - cbn; unfold len; rewrite repeat_length; pose proof (len_nonneg (hd [] labs)).
      fold n; lia.
    - now apply (wf_GetValidLeft_inner docs labs self WF Hself). }
  change (for_each (GetValidLeft_step set_of_list) (range n) self)
    with (GetValidLeft set_of_list self) in H1.
  rewrite H1; cbn.
  apply GetValidLeft_spec in H1 as (E1 & L1 & _).
  assert (Hw1 : holds w1 docs labs) by (rewrite E1; repeat split).
  apply (table_loop_total (GetValidRight_inner set_of_list) right with_right
              (GetValidRight_step set_of_list)
              (fun _ _ => eq_refl) (fun _ _ _ => eq_refl) (fun _ _ => eq_refl)).
  intros k Hk; apply in_range in Hk.
  replace (num_attributes w1) with n in * by (now rewrite E1).
  split.
  - rewrite E1; cbn; unfold len; rewrite repeat_length.
    pose proof (len_nonneg (hd [] labs)); fold n; lia.
  - apply (wf_GetValidRight_inner docs labs w1 WF Hw1).
    now replace (num_attributes w1) with n by (now rewrite E1).
Qed.

End SetFacts.

(** * The fallback to the empty string *)

Lemma insertion_order_In l x : In x (insertion_order l) <-> In x l.
Proof. apply nodup_In. Qed.

Lemma insertion_order_NoDup l : NoDup (insertion_order l).
Proof. apply NoDup_nodup. Qed.

Lemma scenario_well_formed : well_formed scenario_docs scenario_labels.
Proof.
  repeat split; [discriminate|].
  intros row [<-|[<-|[]]]; reflexivity.
Qed.

Section Fallback.

Variable set_of_list : list str -> list str.
Hypothesis set_of_list_In : forall l x, In x (set_of_list l) <-> In x l.

Lemma GetValidLeft_inner_Some self k u :
  GetValidLeft_inner set_of_list self k = Ok (Some u) ->
  exists cands pre post,
    LeftCandidates set_of_list self k = Ok cands
    /\ cands = pre ++ u :: post
    /\ (forall v, In v pre -> IsValidLeft set_of_list self v k = Ok false)
    /\ IsValidLeft set_of_list self u k = Ok true.
Proof.
  unfold GetValidLeft_inner; rewrite bind_Ok; intros (cands & Hc & H).
  apply first_valid_Some in H as (pre & post & E & Hpre & Hu).
  now exists cands, pre, post.
Qed.

Lemma GetValidRight_inner_Some self k u :
  GetValidRight_inner set_of_list self k = Ok (Some u) ->
  exists cands pre post,
    RightCandidates set_of_list self k = Ok cands
    /\ cands = pre ++ u :: post
    /\ (forall v, In v pre -> IsValidRight set_of_list self v k = Ok false)
    /\ IsValidRight set_of_list self u k = Ok true.
Proof.
  unfold GetValidRight_inner; rewrite bind_Ok; intros (cands & Hc & H).
  apply first_valid_Some in H as (pre & post & E & Hpre & Hu).
  now exists cands, pre, post.
Qed.

Lemma GetValidRight_inner_None self k :
  GetValidRight_inner set_of_list self k = Ok None ->
  exists cands,
    RightCandidates set_of_list self k = Ok cands
    /\ forall v, In v cands -> IsValidRight set_of_list self v k = Ok false.
Proof.
  unfold GetValidRight_inner; rewrite bind_Ok; intros (cands & Hc & H).
  exists cands; split; [assumption | now apply first_valid_None].
Qed.


(** C10.  With at least one training document [IsValidRight("", k)] is
    [False], a right delimiter that passes validation is not empty, and where
    construction leaves [right[k]] empty every candidate failed validation. *)
Theorem IsValidRight_rejects_empty :
  forall docs labs self k,
    well_formed docs labs -> holds self docs labs ->
    0 <= k < num_attributes self ->
    IsValidRight set_of_list self [] k = Ok false
    /\ (forall u, IsValidRight set_of_list self u k = Ok true -> u <> [])
    /\ (forall w,
          learn set_of_list docs labs = Ok w ->
          nth_error (right w) (Z.to_nat k) = Some [] ->
          exists cands,
            RightCandidates set_of_list w k = Ok cands
            /\ forall u, In u cands ->
                 IsValidRight set_of_list w u k = Ok false).
Proof.
  intros docs labs self k WF Hself Hk.
  assert (E : forall s, holds s docs labs ->
                        IsValidRight set_of_list s [] k = Ok false).
  { intros s Hs; unfold IsValidRight.
    destruct (wf_attributes set_of_list set_of_list_In docs labs s WF Hs k)
      as (ats & -> & Hne).
    - destruct Hs as (_ & _ & ->), Hself as (_ & _ & Hn); lia.
    - cbn; destruct ats as [|a ats]; [congruence|].
      cbn; now rewrite contains_nil. }
  split; [now apply E|]; split.
  - intros u Hu ->; rewrite (E self Hself) in Hu; discriminate.
  - intros w Hw Hr.
    destruct (learn_spec set_of_list docs labs w Hw)
      as (row0 & Hrow & E1 & E2 & E3 & _ & _ & H).
    assert (Hw' : holds w docs labs).
    { repeat split; try assumption.
      rewrite (wf_index_0 docs labs WF) in Hrow; congruence. }
    destruct (H k) as (_ & (fr & Hfr & Hr')).
    { destruct Hself as (_ & _ & Hn), Hw' as (_ & _ & Hn'); lia. }
    destruct fr as [u|]; [exfalso | now apply GetValidRight_inner_None].
    apply GetValidRight_inner_Some in Hfr as (_ & _ & _ & _ & _ & _ & Hu).
    assert (u = []) as -> by congruence.
    rewrite (E w Hw') in Hu; discriminate.
Qed.

End Fallback.


Lemma IsValidRight_rejects_empty_witness :
  IsValidRight insertion_order (blank scenario_docs scenario_labels 2) [] 1
  = Ok false.
Proof.
  refine (proj1 (IsValidRight_rejects_empty insertion_order insertion_order_In
                   scenario_docs scenario_labels
                   (blank scenario_docs scenario_labels 2) 1
                   scenario_well_formed _ _)).
  - repeat split.
  - cbn; lia.
Defined.

(** * Candidates *)

Lemma reverse_insertion_order_In l x :
  In x (reverse_insertion_order l) <-> In x l.
Proof.
  unfold reverse_insertion_order; rewrite <- in_rev; apply insertion_order_In.
Qed.

Lemma reverse_insertion_order_NoDup l : NoDup (reverse_insertion_order l).
Proof. apply NoDup_rev, insertion_order_NoDup. Qed.

Lemma min_by_len_from_spec l best :
  In (min_by_len_from best l) (best :: l)
  /\ forall x, In x (best :: l) ->
       (length (min_by_len_from best l) <= length x)%nat.
Proof.
  revert best; induction l as [|y l IH]; intros best; cbn [min_by_len_from].
  - split; [now left | intros x [<-|[]]; lia].
  - destruct (length y <? length best)%nat eqn:E.
    + apply Nat.ltb_lt in E; destruct (IH y) as [H1 H2]; split.
      * right; exact H1.
      * intros x [<-|Hx]; [specialize (H2 y (or_introl eq_refl)); lia|].
        now apply H2.
    + apply Nat.ltb_ge in E; destruct (IH best) as [H1 H2]; split.
      * destruct H1 as [H1|H1]; [now left | right; now right].
      * intros x [<-|[<-|Hx]]; [apply H2; now left | |apply H2; now right].
        specialize (H2 best (or_introl eq_refl)); lia.
Qed.

Lemma min_by_len_spec l m :
  min_by_len l = Ok m ->
  In m l /\ forall x, In x l -> (length m <= length x)%nat.
Proof.
  destruct l as [|x l]; [discriminate|]; intros [= <-].
  apply min_by_len_from_spec.
Qed.

Lemma suffix_candidates (shortest u : str) :
  In u (map (fun i => slice shortest (Some i) None) (range (len shortest)))
  <-> u <> [] /\ exists p, shortest = p ++ u.
Proof.
  rewrite in_map_iff; split.
  - intros (i & <- & Hi); apply in_range in Hi.
    rewrite slice_from by lia; split.
    + intros E; apply (f_equal (@length ascii)) in E.
      rewrite length_skipn in E; unfold len in Hi; simpl in E; lia.
    + exists (firstn (Z.to_nat i) shortest); symmetry; apply firstn_skipn.
  - intros (Hu & p & ->); exists (len p); split.
    + rewrite slice_from by apply len_nonneg; unfold len.
      rewrite Nat2Z.id, skipn_app, skipn_all, Nat.sub_diag; reflexivity.
    + apply in_range; rewrite len_app; pose proof (len_nonneg p).
      destruct u; [congruence | unfold len; simpl; lia].
Qed.

Lemma prefix_candidates (shortest u : str) :
  In u (map (fun i => slice shortest None (Some i)) (range (len shortest)))
  <-> exists t, t <> [] /\ shortest = u ++ t.
Proof.
  rewrite in_map_iff; split.
  - intros (i & <- & Hi); apply in_range in Hi.
    rewrite slice_to by lia; exists (skipn (Z.to_nat i) shortest); split.
    + intros E; apply (f_equal (@length ascii)) in E.
      rewrite length_skipn in E; unfold len in Hi; simpl in E; lia.
    + symmetry; apply firstn_skipn.
  - intros (t & Ht & ->); exists (len u); split.
    + rewrite slice_to by apply len_nonneg; unfold len.
      rewrite Nat2Z.id, firstn_app, firstn_all, Nat.sub_diag; simpl.
      apply app_nil_r.
    + apply in_range; rewrite len_app; pose proof (len_nonneg u).
      destruct t; [congruence | unfold len; simpl; lia].
Qed.

Section Choice.

Variable set_of_list : list str -> list str.
Hypothesis set_of_list_In : forall l x, In x (set_of_list l) <-> In x l.
Hypothesis set_of_list_NoDup : forall l, NoDup (set_of_list l).

Lemma LeftCandidates_spec self k cands :
  LeftCandidates set_of_list self k = Ok cands ->
  exists ns shortest,
    LeftNeighbors set_of_list self k = Ok ns
    /\ min_by_len ns = Ok shortest
    /\ In shortest ns
    /\ (forall s, In s ns -> (length shortest <= length s)%nat)
    /\ forall u, In u cands <-> u <> [] /\ exists p, shortest = p ++ u.
Proof.
  unfold LeftCandidates; rewrite bind_Ok; intros (ns & Hns & H).
  apply bind_Ok in H as (shortest & Hmin & [= <-]).
  exists ns, shortest; destruct (min_by_len_spec _ _ Hmin) as [H1 H2].
  do 4 (split; [assumption|]).
  intros u; rewrite set_of_list_In; apply suffix_candidates.
Qed.

Lemma RightCandidates_spec self k cands :
  RightCandidates set_of_list self k = Ok cands ->
  exists ns shortest,
    RightNeighbors set_of_list self k = Ok ns
    /\ min_by_len ns = Ok shortest
    /\ In shortest ns
    /\ (forall s, In s ns -> (length shortest <= length s)%nat)
    /\ forall u, In u cands <-> exists t, t <> [] /\ shortest = u ++ t.
Proof.
  unfold RightCandidates; rewrite bind_Ok; intros (ns & Hns & H).
  apply bind_Ok in H as (shortest & Hmin & [= <-]).
  exists ns, shortest; destruct (min_by_len_spec _ _ Hmin) as [H1 H2].
  do 4 (split; [assumption|]).
  intros u; rewrite set_of_list_In; apply prefix_candidates.
Qed.

Lemma LeftCandidates_NoDup self k cands :
  LeftCandidates set_of_list self k = Ok cands -> NoDup cands.
Proof.
  unfold LeftCandidates; rewrite bind_Ok; intros (ns & Hns & H).
  apply bind_Ok in H as (shortest & Hmin & [= <-]); apply set_of_list_NoDup.
Qed.

Lemma RightCandidates_NoDup self k cands :
  RightCandidates set_of_list self k = Ok cands -> NoDup cands.
Proof.
  unfold RightCandidates; rewrite bind_Ok; intros (ns & Hns & H).
  apply bind_Ok in H as (shortest & Hmin & [= <-]); apply set_of_list_NoDup.
Qed.

(** C4, as the code has it.  The left candidates of attribute [k] are the
    suffixes of the shortest left neighbour that are not empty, the full string
    among them, each once; [left[k]] is the first of them, in the iteration
    order of that set, that passes [IsValidLeft], and the empty string when
    none passes.  [right[k]] is chosen the same way among the right
    candidates, each of which is a prefix of the shortest right neighbour. *)
Theorem GetValid_choice :
  forall docs labs w k,
    learn set_of_list docs labs = Ok w ->
    0 <= k < num_attributes w ->
    (exists ns shortest cands,
        LeftNeighbors set_of_list w k = Ok ns
        /\ min_by_len ns = Ok shortest
        /\ In shortest ns
        /\ (forall s, In s ns -> (length shortest <= length s)%nat)
        /\ LeftCandidates set_of_list w k = Ok cands
        /\ NoDup cands
        /\ (forall u, In u cands <-> u <> [] /\ exists p, shortest = p ++ u)
        /\ ((forall u, In u cands -> IsValidLeft set_of_list w u k = Ok false)
            /\ nth_error (left w) (Z.to_nat k) = Some []
            \/ exists pre u post,
                cands = pre ++ u :: post
                /\ (forall v, In v pre ->
                              IsValidLeft set_of_list w v k = Ok false)
                /\ IsValidLeft set_of_list w u k = Ok true
                /\ nth_error (left w) (Z.to_nat k) = Some u))
    /\ (exists ns shortest cands,
        RightNeighbors set_of_list w k = Ok ns
        /\ min_by_len ns = Ok shortest
        /\ RightCandidates set_of_list w k = Ok cands
        /\ NoDup cands
        /\ (forall u, In u cands -> exists t, shortest = u ++ t)
        /\ ((forall u, In u cands -> IsValidRight set_of_list w u k = Ok false)
            /\ nth_error (right w) (Z.to_nat k) = Some []
            \/ exists pre u post,
                cands = pre ++ u :: post
                /\ (forall v, In v pre ->
                              IsValidRight set_of_list w v k = Ok false)
                /\ IsValidRight set_of_list w u k = Ok true
                /\ nth_error (right w) (Z.to_nat k) = Some u)).
Proof.
  intros docs labs w k Hw Hk.
  destruct (learn_spec set_of_list docs labs w Hw)
    as (row0 & _ & _ & _ & Hn & _ & _ & H).
  destruct (H k ltac:(lia)) as ((fl & Hfl & Hl) & (fr & Hfr & Hr)); split.
  - unfold GetValidLeft_inner in Hfl.
    apply bind_Ok in Hfl as (cands & Hc & Hfl).
    destruct (LeftCandidates_spec _ _ _ Hc)
      as (ns & shortest & Hns & Hmin & H1 & H2 & H3).
    exists ns, shortest, cands; do 5 (split; [assumption|]).
    split; [now apply (LeftCandidates_NoDup w k)|]; split; [assumption|].
    destruct fl as [u|].
    + right; apply first_valid_Some in Hfl as (pre & post & E & Hpre & Hu).
      now exists pre, u, post.
    + left; split; [now apply first_valid_None | assumption].
  - unfold GetValidRight_inner in Hfr.
    apply bind_Ok in Hfr as (cands & Hc & Hfr).
    destruct (RightCandidates_spec _ _ _ Hc)
      as (ns & shortest & Hns & Hmin & H1 & H2 & H3).
    exists ns, shortest, cands; do 3 (split; [assumption|]).
    split; [now apply (RightCandidates_NoDup w k)|]; split.
    + intros u Hu; apply H3 in Hu as (t & _ & Ht); now exists t.
    + destruct fr as [u|].
      * right; apply first_valid_Some in Hfr as (pre & post & E & Hpre & Hu).
        now exists pre, u, post.
      * left; split; [now apply first_valid_None | assumption].
Qed.

End Choice.

Lemma scenario_learn :
  learn insertion_order scenario_docs scenario_labels = Ok scenario_learned.
Proof. vm_compute; reflexivity. Qed.

Lemma scenario_learn_rev :
  learn reverse_insertion_order scenario_docs scenario_labels
  = Ok scenario_learned_rev.
Proof. vm_compute; reflexivity. Qed.

Lemma GetValid_choice_witness :
  exists cands,
    LeftCandidates insertion_order scenario_learned 0 = Ok cands
    /\ NoDup cands.
Proof.
  destruct (GetValid_choice insertion_order insertion_order_In
              insertion_order_NoDup scenario_docs scenario_labels
              scenario_learned 0 scenario_learn ltac:(cbn; lia))
    as ((ns & shortest & cands & _ & _ & _ & _ & Hc & Hnd & _) & _).
  now exists cands.
Defined.

(** C4 fails as stated.  The candidates of attribute 0 on the scenario's
    training data are the six suffixes of "Name: " that are not empty: the
    empty suffix is not among them.  With sets iterating in reverse insertion
    order [left[0]] is " ", though the longer "Name: " passes [IsValidLeft]:
    the choice follows the iteration order of the set, not the length. *)
Lemma LeftCandidates_not_longest_first :
  LeftCandidates insertion_order (blank scenario_docs scenario_labels 2) 0
  = Ok [lit "Name: "; lit "ame: "; lit "me: "; lit "e: "; lit ": "; lit " "]
  /\ learn reverse_insertion_order scenario_docs scenario_labels
     = Ok scenario_learned_rev
  /\ nth_error (left scenario_learned_rev) 0 = Some (lit " ")
  /\ IsValidLeft reverse_insertion_order scenario_learned_rev (lit "Name: ") 0
     = Ok true.
Proof.
  repeat split; vm_compute; reflexivity.
Qed.

(** * The end-to-end scenario, for every iteration order *)

Section Scenario.

Variable set_of_list : list str -> list str.
Hypothesis set_of_list_In : forall l x, In x (set_of_list l) <-> In x l.

Lemma forallb_set (P : str -> bool) l :
  forallb P (set_of_list l) = forallb P l.
Proof.
  apply eq_true_iff_eq; rewrite !forallb_forall; split; intros H x Hx;
    apply H; now apply set_of_list_In.
Qed.

Lemma existsb_set (P : str -> bool) l :
  existsb P (set_of_list l) = existsb P l.
Proof.
  apply eq_true_iff_eq; rewrite !existsb_exists; split;
    intros (x & Hx & H); exists x; split; try assumption;
    now apply set_of_list_In.
Qed.

Lemma min_by_len_from_const (a : str) l :
  (forall x, In x l -> x = a) -> min_by_len_from a l = a.
Proof.
  induction l as [|y l IH]; intros H; cbn [min_by_len_from]; [reflexivity|].
  rewrite (H y (or_introl eq_refl)), Nat.ltb_irrefl.
  apply IH; intros x Hx; apply H; now right.
Qed.

Lemma min_by_len_set_const (a : str) l :
  l <> [] -> (forall x, In x l -> x = a) ->
  min_by_len (set_of_list l) = Ok a.
Proof.
  intros Hl H.
  pose proof (set_of_list_nonempty set_of_list set_of_list_In l Hl) as Hne.
  destruct (set_of_list l) as [|y s] eqn:E; [congruence|]; cbn.
  assert (Hs : forall x, In x (y :: s) -> x = a)
    by (intros x Hx; apply H, set_of_list_In; now rewrite E).
  rewrite (Hs y (or_introl eq_refl)); f_equal.
  apply min_by_len_from_const; intros x Hx; apply Hs; now right.
Qed.

Variables L R : list str.

Let self := mkWrapper scenario_labels scenario_docs 2 L R.

Lemma scenario_heads :
  example_heads set_of_list self
  = Ok (set_of_list [lit "Name: "; lit "Name: "]).
Proof. reflexivity. Qed.

Lemma scenario_tails :
  example_tails set_of_list self = Ok (set_of_list [lit ""; lit ""]).
Proof. reflexivity. Qed.

Lemma scenario_Seps_0 :
  Seps set_of_list self 0 = Ok (set_of_list [lit " Age: "; lit " Age: "]).
Proof. reflexivity. Qed.

Lemma scenario_attributes_0 :
  attributes set_of_list self 0 = Ok (set_of_list [lit "Alice"; lit "Bob"]).
Proof. reflexivity. Qed.

Lemma scenario_attributes_1 :
  attributes set_of_list self 1 = Ok (set_of_list [lit "30"; lit "45"]).
Proof. reflexivity. Qed.

Lemma scenario_LeftCandidates_0 :
  LeftCandidates set_of_list self 0
  = Ok (set_of_list [lit "Name: "; lit "ame: "; lit "me: "; lit "e: ";
                     lit ": "; lit " "]).
Proof.
  unfold LeftCandidates, LeftNeighbors; cbn [Z.eqb].
  change (Seps set_of_list self (num_attributes self - 1)) with (@Ok (list str) []).
  rewrite scenario_heads; cbn [bind]; unfold union; cbn [app].
  rewrite (min_by_len_set_const (lit "Name: ")); [reflexivity | |].
  - apply set_of_list_nonempty; [assumption | discriminate].
  - intros x Hx; apply set_of_list_In in Hx as [<-|[<-|[]]]; reflexivity.
Qed.

Lemma scenario_LeftCandidates_1 :
  LeftCandidates set_of_list self 1
  = Ok (set_of_list [lit " Age: "; lit "Age: "; lit "ge: "; lit "e: ";
                     lit ": "; lit " "]).
Proof.
  unfold LeftCandidates, LeftNeighbors; cbn [Z.eqb].
  change (Seps set_of_list self (1 - 1)) with (Seps set_of_list self 0).
  rewrite scenario_Seps_0; cbn [bind].
  rewrite (min_by_len_set_const (lit " Age: ")); [reflexivity | discriminate |].
  intros x [<-|[<-|[]]]; reflexivity.
Qed.

Lemma scenario_RightCandidates_0 :
  RightCandidates set_of_list self 0
  = Ok (set_of_list [lit ""; lit " "; lit " A"; lit " Ag"; lit " Age";
                     lit " Age:"]).
Proof.
  unfold RightCandidates, RightNeighbors.
  change (0 =? num_attributes self - 1) with false; cbv iota.
  rewrite scenario_Seps_0; cbn [bind].
  rewrite (min_by_len_set_const (lit " Age: ")); [reflexivity | discriminate |].
  intros x [<-|[<-|[]]]; reflexivity.
Qed.

Lemma scenario_RightCandidates_1 :
  RightCandidates set_of_list self 1 = Ok [].
Proof.
  unfold RightCandidates, RightNeighbors.
  change (1 =? num_attributes self - 1) with true; cbv iota.
  change (Seps set_of_list self (num_attributes self - 1)) with (@Ok (list str) []).
  rewrite scenario_tails; cbn [bind]; unfold union; cbn [app].
  rewrite (min_by_len_set_const (lit "")).
  - transitivity (@Ok (list str) (set_of_list [])); [reflexivity|].
    now rewrite (set_of_list_nil set_of_list set_of_list_In).
  - apply set_of_list_nonempty; [assumption | discriminate].
  - intros x Hx; apply set_of_list_In in Hx as [<-|[<-|[]]]; reflexivity.
Qed.

Lemma scenario_IsValidLeft_0 u :
  IsValidLeft set_of_list self u 0
  = if negb (forallb (ProperSuffix u) [lit "Name: "; lit "Name: "])
    then Ok false
    else Ok (negb (existsb (contains u) [lit ""; lit ""])).
Proof.
  unfold IsValidLeft, LeftNeighbors; cbn [Z.eqb].
  change (Seps set_of_list self (num_attributes self - 1)) with (@Ok (list str) []).
  rewrite scenario_heads, scenario_tails; cbn [bind]; unfold union; cbn [app].
  now rewrite !forallb_set, existsb_set.
Qed.

Lemma scenario_IsValidLeft_1 u :
  IsValidLeft set_of_list self u 1
  = if negb (forallb (ProperSuffix u) [lit " Age: "; lit " Age: "])
    then Ok false
    else Ok true.
Proof.
  unfold IsValidLeft, LeftNeighbors; cbn [Z.eqb].
  change (Seps set_of_list self (1 - 1)) with (Seps set_of_list self 0).
  rewrite scenario_Seps_0; cbn [bind].
  now rewrite forallb_set.
Qed.

Lemma scenario_IsValidRight_0 u :
  IsValidRight set_of_list self u 0
  = if existsb (contains u) [lit "Alice"; lit "Bob"]
    then Ok false
    else Ok (forallb (fun s => startswith s u) [lit " Age: "; lit " Age: "]).
Proof.
  unfold IsValidRight, RightNeighbors.
  change (0 =? num_attributes self - 1) with false; cbv iota.
  rewrite scenario_attributes_0, scenario_Seps_0; cbn [bind].
  now rewrite forallb_set, existsb_set.
Qed.

End Scenario.

Lemma list_of_two {A} (l : list A) a b :
  length l = 2%nat -> nth_error l 0 = Some a -> nth_error l 1 = Some b ->
  l = [a; b].
Proof.
  destruct l as [|x [|y [|z l]]]; try discriminate.
  now intros _ [= ->] [= ->].
Qed.

Section ScenarioChoice.

Variable set_of_list : list str -> list str.
Hypothesis set_of_list_In : forall l x, In x (set_of_list l) <-> In x l.

Lemma first_valid_set valid l found :
  first_valid valid (set_of_list l) = Ok found ->
  match found with
  | Some u => In u l /\ valid u = Ok true
  | None => forall v, In v l -> valid v = Ok false
  end.
Proof.
  destruct found as [u|]; intros H.
  - apply first_valid_Some in H as (pre & post & E & _ & Hu); split; [|exact Hu].
    apply set_of_list_In; rewrite E; apply in_elt.
  - intros v Hv; apply (proj1 (first_valid_None _ _) H).
    now apply set_of_list_In.
Qed.

(** C2, as the code has it.  On the two training documents construction
    returns an object whatever order sets iterate in; [right[1]] is the empty
    string, [left[0]] is one of the six non-empty suffixes of "Name: ",
    [left[1]] one of the five suffixes of " Age: " from ": " on, [right[0]]
    one of the five non-empty proper prefixes of " Age: "; and extraction on
    "Name: Carol Age: 22" returns ["Carol", ""]. *)
Theorem scenario_for_every_order :
  exists w l0 l1 r0,
    learn set_of_list scenario_docs scenario_labels = Ok w
    /\ left w = [l0; l1]
    /\ right w = [r0; lit ""]
    /\ In l0 [lit "Name: "; lit "ame: "; lit "me: "; lit "e: "; lit ": ";
              lit " "]
    /\ In l1 [lit " Age: "; lit "Age: "; lit "ge: "; lit "e: "; lit ": "]
    /\ In r0 [lit " "; lit " A"; lit " Ag"; lit " Age"; lit " Age:"]
    /\ fst (execLR w scenario_page) = [lit "Carol"; lit ""].
Proof.
  destruct (learn_total set_of_list set_of_list_In _ _ scenario_well_formed)
    as [w Hw].
  destruct (learn_spec set_of_list _ _ w Hw)
    as (row0 & Hrow & E1 & E2 & E3 & HlenL & HlenR & H).
  injection Hrow as <-.
  destruct w as [lb ex n L R]; cbn in E1, E2, E3, HlenL, HlenR; subst lb ex n.
  destruct (H 0 ltac:(cbn; lia)) as ((fl0 & Hfl0 & Hl0) & (fr0 & Hfr0 & Hr0)).
  destruct (H 1 ltac:(cbn; lia)) as ((fl1 & Hfl1 & Hl1) & (fr1 & Hfr1 & Hr1)).
  clear H; cbn [left right] in *.
  change (Z.to_nat 0) with 0%nat in *; change (Z.to_nat 1) with 1%nat in *.
  unfold GetValidLeft_inner in Hfl0, Hfl1.
  unfold GetValidRight_inner in Hfr0, Hfr1.
  rewrite (scenario_LeftCandidates_0 set_of_list set_of_list_In) in Hfl0.
  rewrite (scenario_LeftCandidates_1 set_of_list set_of_list_In) in Hfl1.
  rewrite (scenario_RightCandidates_0 set_of_list set_of_list_In) in Hfr0.
  rewrite (scenario_RightCandidates_1 set_of_list set_of_list_In) in Hfr1.
  cbn [bind] in Hfl0, Hfl1, Hfr0, Hfr1.
  apply first_valid_set in Hfl0, Hfl1, Hfr0.
  injection Hfr1 as <-.
  (* left[0] *)
  destruct fl0 as [l0|];
    [|specialize (Hfl0 (lit "Name: ") (or_introl eq_refl));
      rewrite (scenario_IsValidLeft_0 set_of_list set_of_list_In) in Hfl0;
      discriminate].
  destruct Hfl0 as [Hin0 _].
  (* left[1] *)
  destruct fl1 as [l1|];
    [|specialize (Hfl1 (lit " Age: ") (or_introl eq_refl));
      rewrite (scenario_IsValidLeft_1 set_of_list set_of_list_In) in Hfl1;
      discriminate].
  destruct Hfl1 as [Hin1 Hv1].
  rewrite (scenario_IsValidLeft_1 set_of_list set_of_list_In) in Hv1.
  assert (Hin1' : In l1 [lit " Age: "; lit "Age: "; lit "ge: "; lit "e: ";
                         lit ": "]).
  { destruct Hin1 as [<-|[<-|[<-|[<-|[<-|[<-|[]]]]]]];
      try (cbn; tauto); discriminate. }
  (* right[0] *)
  destruct fr0 as [r0|];
    [|specialize (Hfr0 (lit " Age") ltac:(cbn; tauto));
      rewrite (scenario_IsValidRight_0 set_of_list set_of_list_In) in Hfr0;
      discriminate].
  destruct Hfr0 as [Hinr Hvr].
  rewrite (scenario_IsValidRight_0 set_of_list set_of_list_In) in Hvr.
  assert (Hinr' : In r0 [lit " "; lit " A"; lit " Ag"; lit " Age";
                         lit " Age:"]).
  { destruct Hinr as [<-|[<-|[<-|[<-|[<-|[<-|[]]]]]]];
      try (cbn; tauto); discriminate. }
  exists (mkWrapper scenario_labels scenario_docs (len (hd [] scenario_labels))
            L R), l0, l1, r0.
  rewrite (list_of_two L l0 l1 HlenL Hl0 Hl1).
  rewrite (list_of_two R r0 (lit "") HlenR Hr0 Hr1).
  rewrite (list_of_two L l0 l1 HlenL Hl0 Hl1),
          (list_of_two R r0 (lit "") HlenR Hr0 Hr1) in Hw.
  do 6 (split; [assumption || reflexivity|]).
  clear - Hin0 Hin1' Hinr'.
  destruct Hin0 as [<-|[<-|[<-|[<-|[<-|[<-|[]]]]]]];
    destruct Hin1' as [<-|[<-|[<-|[<-|[<-|[]]]]]];
    destruct Hinr' as [<-|[<-|[<-|[<-|[<-|[]]]]]];
    vm_compute; reflexivity.
Qed.

End ScenarioChoice.

Lemma scenario_for_every_order_witness :
  exists w l0 l1 r0,
    learn insertion_order scenario_docs scenario_labels = Ok w
    /\ left w = [l0; l1]
    /\ right w = [r0; lit ""]
    /\ In l0 [lit "Name: "; lit "ame: "; lit "me: "; lit "e: "; lit ": ";
              lit " "]
    /\ In l1 [lit " Age: "; lit "Age: "; lit "ge: "; lit "e: "; lit ": "]
    /\ In r0 [lit " "; lit " A"; lit " Ag"; lit " Age"; lit " Age:"]
    /\ fst (execLR w scenario_page) = [lit "Carol"; lit ""].
Proof.
  exact (scenario_for_every_order insertion_order insertion_order_In).
Defined.

(** C2 fails as stated.  Extraction with the very table the claim names
    returns the empty string for the second attribute, since the empty
    [right[1]] is found where the search starts; and with sets iterating in
    insertion order construction learns another table, [left[1]] being
    " Age: " and [right[0]] " ", and extraction returns the same list. *)
Lemma scenario_as_claimed_fails :
  fst (execLR scenario_table scenario_page) = [lit "Carol"; lit ""]
  /\ learn insertion_order scenario_docs scenario_labels = Ok scenario_learned
  /\ left scenario_learned = [lit "Name: "; lit " Age: "]
  /\ right scenario_learned = [lit " "; lit ""]
  /\ fst (execLR scenario_learned scenario_page) = [lit "Carol"; lit ""].
Proof. repeat split; vm_compute; reflexivity. Qed.

(** * Adding a training document *)

Section AddedDocument.

Variable set_of_list : list str -> list str.
Hypothesis set_of_list_In : forall l x, In x (set_of_list l) <-> In x l.

Lemma set_comprehension_each self f s :
  set_comprehension set_of_list self f = Ok s ->
  forall i P, 0 <= i -> nth_error (examples self) (Z.to_nat i) = Some P ->
              exists x, f i P = Ok x.
Proof.
  unfold set_comprehension; rewrite bind_Ok; intros (xs & H & _) i P Hi HP.
  destruct (mapM_Ok_in _ _ _ (i, P) H) as (x & Hx & _);
    [now apply in_enumerate | now exists x].
Qed.

(** A comprehension over the training set with one more document holds what
    the comprehension over the training set holds. *)
Lemma set_comprehension_added self self' P f f' s' :
  examples self' = examples self ++ [P] ->
  (forall i Q, 0 <= i -> nth_error (examples self) (Z.to_nat i) = Some Q ->
               f' i Q = f i Q) ->
  set_comprehension set_of_list self' f' = Ok s' ->
  exists s,
    set_comprehension set_of_list self f = Ok s
    /\ forall x, In x s -> In x s'.
Proof.
  intros Hex Hf H'.
  assert (Hnth : forall i Q, nth_error (examples self) i = Some Q ->
                             nth_error (examples self') i = Some Q).
  { intros i Q HQ; rewrite Hex, nth_error_app1; [assumption|].
    apply nth_error_Some; congruence. }
  destruct (set_comprehension_total set_of_list self f) as [s Hs].
  - intros i Q Hi HQ; rewrite <- (Hf i Q Hi HQ).
    apply (set_comprehension_each self' f' s' H' i Q Hi), Hnth, HQ.
  - exists s; split; [assumption|]; intros x Hx.
    apply (set_comprehension_In set_of_list set_of_list_In _ _ _ Hs) in Hx
      as (i & Q & Hi & HQ & Hx).
    apply (set_comprehension_In set_of_list set_of_list_In _ _ _ H').
    exists i, Q; repeat split; [assumption | now apply Hnth |].
    now rewrite Hf.
Qed.

Variables (docs : list str) (labs : list (list span)).
Variables (P : str) (row : list span).
Variables (self self' : wrapper).

Hypothesis Hlen : length labs = length docs.
Hypothesis Hdocs : docs <> [].
Hypothesis Hself : holds self docs labs.
Hypothesis Hself' : holds self' (docs ++ [P]) (labs ++ [row]).

Lemma added_examples : examples self' = examples self ++ [P].
Proof. destruct Hself as (_ & -> & _), Hself' as (_ & -> & _); reflexivity. Qed.

Lemma added_num_attributes : num_attributes self' = num_attributes self.
Proof.
  destruct Hself as (_ & _ & ->), Hself' as (_ & _ & ->).
  destruct labs; [|reflexivity].
  destruct docs; [congruence | discriminate].
Qed.

Lemma added_label i Q k :
  0 <= i -> nth_error (examples self) (Z.to_nat i) = Some Q ->
  label self' i k = label self i k.
Proof.
  intros Hi HQ; unfold label.
  destruct Hself as (-> & E & _), Hself' as (-> & _ & _).
  rewrite !index_nonneg by assumption.
  rewrite nth_error_app1; [reflexivity|].
  rewrite Hlen, <- E; apply nth_error_Some; congruence.
Qed.


Lemma added_example_tails s' :
  example_tails set_of_list self' = Ok s' ->
  exists s, example_tails set_of_list self = Ok s
            /\ s <> [] /\ forall x, In x s -> In x s'.
Proof.
  intros H; eapply set_comprehension_added in H as (s & Hs & Hin).
  - exists s; split; [exact Hs|]; split; [|exact Hin].
    eapply set_comprehension_nonempty; [eassumption | | exact Hs].
    now rewrite (proj1 (proj2 Hself)).
  - apply added_examples.
  - intros i Q Hi HQ; cbn beta; now rewrite (added_label i Q (-1) Hi HQ).
Qed.

Lemma added_Seps k s' :
  k <> num_attributes self - 1 ->
  Seps set_of_list self' k = Ok s' ->
  exists s, Seps set_of_list self k = Ok s
            /\ s <> [] /\ forall x, In x s -> In x s'.
Proof.
  intros Hk; unfold Seps; rewrite added_num_attributes.
  destruct (k =? num_attributes self - 1) eqn:E; [lia|].
  intros H; eapply set_comprehension_added in H as (s & Hs & Hin).
  - exists s; split; [exact Hs|]; split; [|exact Hin].
    eapply set_comprehension_nonempty; [eassumption | | exact Hs].
    now rewrite (proj1 (proj2 Hself)).
  - apply added_examples.
  - intros i Q Hi HQ; cbn beta.
    now rewrite (added_label i Q k Hi HQ), (added_label i Q (k + 1) Hi HQ).
Qed.




End AddedDocument.

Lemma learn_holds set_of_list docs labs w :
  learn set_of_list docs labs = Ok w -> holds w docs labs.
Proof.
  intros Hw; destruct (learn_spec set_of_list docs labs w Hw)
    as (row0 & Hrow & E1 & E2 & E3 & _).
  repeat split; try assumption.
  destruct labs as [|r labs']; [discriminate|].
  injection Hrow as <-; exact E3.
Qed.

Section AddedDocumentChoice.

Variable set_of_list : list str -> list str.
Hypothesis set_of_list_In : forall l x, In x (set_of_list l) <-> In x l.


End AddedDocumentChoice.




(** * Extraction on a document whose delimiters are unambiguous *)

Lemma startswith_app_long (y x l : str) :
  (length l <= length y)%nat -> startswith (y ++ x) l = startswith y l.
Proof.
  revert y; induction l as [|c l IH]; intros y Hy; [reflexivity|].
  destruct y as [|d y]; [simpl in Hy; lia|].
  cbn [app startswith]; rewrite IH; [reflexivity | simpl in Hy; lia].
Qed.

Lemma search_app_l (n x l : str) i :
  search n l = Some i -> search (n ++ x) l = Some i.
Proof.
  rewrite !search_Some; intros (H1 & H2 & H3).
  assert (Hfit : (i + length l <= length n)%nat).
  { apply startswith_iff in H1 as [t Ht].
    apply (f_equal (@length ascii)) in Ht.
    rewrite length_skipn, length_app in Ht; lia. }
  assert (Hskip : forall j, (j <= i)%nat ->
            startswith (skipn j (n ++ x)) l = startswith (skipn j n) l).
  { intros j Hj; rewrite skipn_app.
    replace (j - length n)%nat with O by lia; cbn [skipn].
    apply startswith_app_long; rewrite length_skipn; lia. }
  repeat split.
  - now rewrite Hskip.
  - rewrite length_app; lia.
  - intros j Hj; rewrite Hskip by lia; now apply H3.
Qed.

Lemma search_at_most s u j :
  startswith (skipn j s) u = true -> (j <= length s)%nat ->
  exists i, search s u = Some i /\ (i <= j)%nat.
Proof.
  intros H Hj; destruct (search s u) as [i|] eqn:E.
  - exists i; split; [reflexivity|].
    apply search_Some in E as (_ & _ & E).
    destruct (Nat.le_gt_cases i j) as [Hle|Hgt]; [assumption|].
    rewrite (E j Hgt) in H; discriminate.
  - rewrite search_None in E; rewrite E in H; discriminate.
Qed.

(** A suffix that is not found before its final occurrence is found there. *)
Lemma find_suffix (n l : str) :
  endswith n l = true -> len n - len l <= find n l ->
  search n l = Some (length n - length l)%nat.
Proof.
  intros He Hf; apply endswith_iff in He as [p ->].
  destruct (search_at_most (p ++ l) l (length p)) as (i & Hi & Hle).
  - rewrite skipn_app, skipn_all, Nat.sub_diag; cbn [skipn app].
    rewrite <- (app_nil_r l) at 1; apply startswith_app.
  - rewrite length_app; lia.
  - unfold find in Hf; rewrite Hi in *; f_equal.
    rewrite !len_app in Hf; unfold len in Hf; rewrite length_app; lia.
Qed.

(** A prefix of what follows that is not found before the end of [a] is
    found there. *)
Lemma find_prefix (a m r : str) :
  startswith m r = true -> len a <= find (a ++ m) r ->
  search (a ++ m) r = Some (length a).
Proof.
  intros Hp Hf.
  destruct (search_at_most (a ++ m) r (length a)) as (i & Hi & Hle).
  - now rewrite skipn_app, skipn_all, Nat.sub_diag.
  - rewrite length_app; lia.
  - unfold find in Hf; rewrite Hi in *; f_equal; unfold len in Hf; lia.
Qed.

(** One turn of the loop on a page that starts with the left neighbour [n],
    the attribute [a] and the right neighbour [m]. *)
Lemma execLR_step_delimited attr (n a m rest l r : str) :
  endswith n l = true -> len n - len l <= find n l ->
  startswith m r = true -> len a <= find (a ++ m) r ->
  execLR_step (attr, n ++ a ++ m ++ rest) (l, r)
  = (attr ++ [a], m ++ rest).
Proof.
  intros Hl1 Hl2 Hr1 Hr2.
  pose proof (find_suffix n l Hl1 Hl2) as Sl.
  pose proof (find_prefix a m r Hr1 Hr2) as Sr.
  apply endswith_iff in Hl1 as [p Ep].
  assert (Elen : len n - len l = Z.of_nat (length n - length l)).
  { subst n; rewrite len_app; unfold len; rewrite length_app; lia. }
  unfold execLR_step.
  assert (E1 : find (n ++ a ++ m ++ rest) l + len l = len n).
  { unfold find; rewrite (search_app_l n _ l _ Sl); lia. }
  rewrite E1.
  assert (E2 : slice (n ++ a ++ m ++ rest) (Some (len n)) None
               = a ++ m ++ rest).
  { rewrite slice_from by apply len_nonneg; unfold len.
    now rewrite Nat2Z.id, skipn_app, skipn_all, Nat.sub_diag. }
  rewrite E2.
  assert (E3 : find (a ++ m ++ rest) r = len a).
  { unfold find; rewrite app_assoc, (search_app_l (a ++ m) rest r _ Sr).
    reflexivity. }
  rewrite E3; f_equal.
  - f_equal; f_equal.
    rewrite slice_range by (pose proof (len_nonneg a); pose proof (len_nonneg n); lia).
    unfold len; replace (Z.to_nat (Z.of_nat (length a) + Z.of_nat (length n))
                         - Z.to_nat (Z.of_nat (length n)))%nat
      with (length a) by lia.
    rewrite Nat2Z.id, skipn_app, skipn_all, Nat.sub_diag; cbn [skipn app].
    now rewrite firstn_app, firstn_all, Nat.sub_diag, firstn_O, app_nil_r.
  - rewrite slice_from by (pose proof (len_nonneg a); pose proof (len_nonneg n); lia).
    unfold len; replace (Z.to_nat (Z.of_nat (length a) + Z.of_nat (length n)))
      with (length n + length a)%nat by lia.
    rewrite app_assoc, skipn_app, skipn_all2 by (rewrite length_app; lia).
    rewrite length_app.
    now replace (length n + length a - (length n + length a))%nat with O by lia.
Qed.

Lemma html_learn : learn insertion_order html_docs html_labels = Ok html_learned.
Proof. vm_compute; reflexivity. Qed.

Lemma slice_None_0 {A} (s : list A) hi : slice s None hi = slice s (Some 0) hi.
Proof.
  unfold slice, clamp; cbn.
  now rewrite Z.min_l by apply len_nonneg.
Qed.

Lemma slice_whole {A} (s : list A) : slice s (Some 0) None = s.
Proof. now rewrite slice_from by lia. Qed.

Lemma slice_split {A} (s : list A) x y :
  0 <= x <= y ->
  slice s (Some x) None = slice s (Some x) (Some y) ++ slice s (Some y) None.
Proof.
  intros H; rewrite !slice_from, slice_range by lia.
  replace (Z.to_nat y) with ((Z.to_nat y - Z.to_nat x) + Z.to_nat x)%nat
    at 2 by lia.
  rewrite <- skipn_skipn; symmetry; apply firstn_skipn.
Qed.

Lemma firstn_succ_nth_error {A} (l : list A) k x :
  nth_error l k = Some x -> firstn (S k) l = firstn k l ++ [x].
Proof.
  revert k; induction l as [|y l IH]; intros [|k]; simpl; try discriminate.
  - now intros [= ->].
  - intros H; f_equal; now apply IH.
Qed.

Section Labelled.

Variables (P : str) (row : list span).
Hypothesis Hord : ordered P row.

Lemma prev_end_nonneg k : (k <= length row)%nat -> 0 <= prev_end row k.
Proof.
  induction k as [|k IH]; intros Hk; cbn; [lia|].
  destruct (Hord k ltac:(lia)) as (H1 & H2 & _).
  specialize (IH ltac:(lia)); lia.
Qed.

(** The page from the end of the attribute before [k] on. *)
Lemma page_from_prev_end k :
  (k < length row)%nat ->
  exists rest,
    slice P (Some (prev_end row k)) None
    = left_neighbor_of P row k ++ attribute_of P row k
      ++ right_neighbor_of P row k ++ rest
    /\ right_neighbor_of P row k ++ rest
       = slice P (Some (prev_end row (S k))) None.
Proof.
  intros Hk; destruct (Hord k Hk) as (H1 & H2 & H3).
  pose proof (prev_end_nonneg k ltac:(lia)) as H0.
  unfold left_neighbor_of, attribute_of, right_neighbor_of.
  cbn [prev_end].
  set (c := prev_end row k) in *.
  set (b := fst (span_at row k)) in *; set (e := snd (span_at row k)) in *.
  destruct (S k <? length row)%nat eqn:E.
  - apply Nat.ltb_lt in E; destruct (Hord (S k) E) as (G1 & G2 & G3).
    cbn [prev_end] in G1; fold e in G1.
    exists (slice P (Some (fst (span_at row (S k)))) None); split.
    + rewrite (slice_split P c b) by lia; f_equal.
      rewrite (slice_split P b e) by lia; f_equal.
      apply slice_split; lia.
    + symmetry; apply slice_split; lia.
  - exists []; split; [|apply app_nil_r].
    rewrite (slice_split P c b) by lia; f_equal.
    rewrite (slice_split P b e) by lia; f_equal.
    now rewrite app_nil_r.
Qed.

Variable self : wrapper.
Hypothesis Hleft : length (left self) = length row.
Hypothesis Hright : length (right self) = length row.
Hypothesis Hdelim : forall k l r,
  nth_error (left self) k = Some l -> nth_error (right self) k = Some r ->
  endswith (left_neighbor_of P row k) l = true
  /\ startswith (right_neighbor_of P row k) r = true
  /\ unambiguous P row k l r.

Lemma delimiters_at k :
  (k < length row)%nat ->
  exists l r, nth_error (left self) k = Some l
              /\ nth_error (right self) k = Some r.
Proof.
  intros Hk.
  destruct (nth_error (left self) k) as [l|] eqn:El;
    [|apply nth_error_None in El; lia].
  destruct (nth_error (right self) k) as [r|] eqn:Er;
    [|apply nth_error_None in Er; lia].
  now exists l, r.
Qed.

Lemma step_at k l r attr :
  (k < length row)%nat ->
  nth_error (left self) k = Some l -> nth_error (right self) k = Some r ->
  execLR_step (attr, slice P (Some (prev_end row k)) None) (l, r)
  = (attr ++ [attribute_of P row k],
     slice P (Some (prev_end row (S k))) None).
Proof.
  intros Hk Hl Hr.
  destruct (Hdelim k l r Hl Hr) as (D1 & D2 & D3 & D4).
  destruct (page_from_prev_end k Hk) as (rest & -> & <-).
  now apply execLR_step_delimited.
Qed.

Lemma cursor_at k :
  (k <= length row)%nat ->
  cursor self P k = slice P (Some (prev_end row k)) None.
Proof.
  induction k as [|k IH]; intros Hk.
  - unfold cursor; cbn; now rewrite slice_whole.
  - destruct (delimiters_at k ltac:(lia)) as (l & r & Hl & Hr).
    unfold cursor in *.
    rewrite (firstn_succ_nth_error _ k (l, r))
      by (now apply nth_error_combine).
    rewrite fold_left_app; cbn [fold_left].
    destruct (fold_left execLR_step _ ([], P)) as [attr Q] eqn:E.
    cbn [snd] in IH; rewrite IH by lia.
    exact (f_equal snd (step_at k l r attr ltac:(lia) Hl Hr)).
Qed.

Lemma execLR_labelled :
  fst (execLR self P) = map (attribute_of P row) (seq 0 (length row)).
Proof.
  apply nth_error_ext; intros k.
  destruct (Nat.lt_ge_cases k (length row)) as [Hk|Hk].
  - destruct (delimiters_at k Hk) as (l & r & Hl & Hr).
    unfold execLR; cbn [fst].
    destruct (execLR_loop_nth _ k l r P (nth_error_combine _ _ _ _ _ Hl Hr))
      as [_ ->].
    fold (cursor self P k); rewrite (cursor_at k ltac:(lia)).
    pose proof (step_at k l r [] Hk Hl Hr) as Hs.
    unfold execLR_step in Hs; injection Hs as Hs _.
    cbn zeta; rewrite Hs.
    rewrite nth_error_map, nth_error_seq.
    apply Nat.ltb_lt in Hk; now rewrite Hk.
  - rewrite (proj2 (nth_error_None _ _)), (proj2 (nth_error_None _ _));
      [reflexivity | |].
    + now rewrite length_map, length_seq.
    + unfold execLR; cbn [fst].
      rewrite execLR_loop_length, length_combine; cbn; lia.
Qed.

End Labelled.

(** * Extraction on a training document *)

Lemma map_attribute_of P row :
  map (attribute_of P row) (seq 0 (length row))
  = map (fun sp : span => slice P (Some (fst sp)) (Some (snd sp))) row.
Proof.
  apply nth_error_ext; intros k; rewrite !nth_error_map, nth_error_seq.
  destruct (k <? length row)%nat eqn:E.
  - apply Nat.ltb_lt in E.
    now rewrite (nth_error_nth' row ((0, 0) : span) E).
  - apply Nat.ltb_ge in E.
    now rewrite (proj2 (nth_error_None _ _) E).
Qed.

Section TrainingDocument.

Variable set_of_list : list str -> list str.
Hypothesis set_of_list_In : forall l x, In x (set_of_list l) <-> In x l.

Lemma IsValidLeft_true self u k :
  IsValidLeft set_of_list self u k = Ok true ->
  exists ns,
    LeftNeighbors set_of_list self k = Ok ns
    /\ forall s, In s ns -> ProperSuffix u s = true.
Proof.
  unfold IsValidLeft; rewrite bind_Ok; intros (ns & Hns & H).
  exists ns; split; [assumption|].
  destruct (forallb (ProperSuffix u) ns) eqn:E; [|discriminate].
  apply (proj1 (forallb_forall _ _) E).
Qed.

Lemma IsValidRight_true self u k :
  IsValidRight set_of_list self u k = Ok true ->
  exists ns,
    RightNeighbors set_of_list self k = Ok ns
    /\ forall s, In s ns -> startswith s u = true.
Proof.
  unfold IsValidRight; rewrite bind_Ok; intros (ats & _ & H).
  destruct (existsb (contains u) ats); [discriminate|].
  apply bind_Ok in H as (ns & Hns & [= H]).
  exists ns; split; [assumption|].
  apply (proj1 (forallb_forall _ _) H).
Qed.

Variables (self : wrapper) (i : nat) (P : str) (row : list span).
Hypothesis Hdoc : nth_error (examples self) i = Some P.
Hypothesis Hrow : nth_error (labels self) i = Some row.
Hypothesis Hnum : len row = num_attributes self.

Lemma label_at k :
  (k < length row)%nat ->
  label self (Z.of_nat i) (Z.of_nat k) = Ok (span_at row k).
Proof.
  intros Hk; unfold label.
  rewrite index_nonneg, Nat2Z.id, Hrow by lia; cbn [bind].
  rewrite index_nonneg, Nat2Z.id by lia.
  unfold span_at; now rewrite (nth_error_nth' row ((0, 0) : span) Hk).
Qed.

Lemma label_last :
  row <> [] ->
  label self (Z.of_nat i) (-1) = Ok (span_at row (length row - 1)).
Proof.
  intros Hne; unfold label.
  rewrite index_nonneg, Nat2Z.id, Hrow by lia; cbn [bind].
  rewrite index_last by assumption.
  assert (Hk : (length row - 1 < length row)%nat)
    by (destruct row; [congruence | simpl; lia]).
  unfold span_at; now rewrite (nth_error_nth' row ((0, 0) : span) Hk).
Qed.

Lemma in_set_comprehension f s x :
  set_comprehension set_of_list self f = Ok s ->
  f (Z.of_nat i) P = Ok x -> In x s.
Proof.
  intros Hs Hf.
  apply (set_comprehension_In set_of_list set_of_list_In _ _ _ Hs).
  exists (Z.of_nat i), P; rewrite Nat2Z.id; repeat split; [lia | |]; assumption.
Qed.

Lemma left_neighbor_In k ns :
  (k < length row)%nat ->
  LeftNeighbors set_of_list self (Z.of_nat k) = Ok ns ->
  In (left_neighbor_of P row k) ns.
Proof.
  intros Hk; unfold LeftNeighbors, left_neighbor_of.
  destruct k as [|k]; cbn [prev_end].
  - change (Z.of_nat 0 =? 0) with true; cbv iota.
    unfold Seps at 1; rewrite Z.eqb_refl; cbn [bind].
    rewrite bind_Ok; intros (hs & Hhs & [= <-]).
    unfold union; cbn [app]; apply set_of_list_In.
    apply (in_set_comprehension _ _ _ Hhs); cbn beta.
    pose proof (label_at 0 Hk) as Hl0; cbn [Z.of_nat] in Hl0.
    rewrite Hl0; cbn [bind]; now rewrite slice_None_0.
  - change (Z.of_nat (S k) =? 0) with false; cbv iota.
    replace (Z.of_nat (S k) - 1) with (Z.of_nat k) by lia.
    unfold Seps; rewrite <- Hnum; unfold len.
    destruct (Z.of_nat k =? Z.of_nat (length row) - 1) eqn:E'; [lia|].
    intros Hs; apply (in_set_comprehension _ _ _ Hs); cbn beta.
    replace (Z.of_nat k + 1) with (Z.of_nat (S k)) by lia.
    now rewrite (label_at k ltac:(lia)), (label_at (S k) Hk).
Qed.

Lemma right_neighbor_In k ns :
  (k < length row)%nat ->
  RightNeighbors set_of_list self (Z.of_nat k) = Ok ns ->
  In (right_neighbor_of P row k) ns.
Proof.
  intros Hk; unfold RightNeighbors, right_neighbor_of.
  rewrite <- Hnum; unfold len.
  destruct (Z.of_nat k =? Z.of_nat (length row) - 1) eqn:E.
  - apply Z.eqb_eq in E.
    unfold Seps; rewrite <- Hnum; unfold len; rewrite Z.eqb_refl; cbn [bind].
    rewrite bind_Ok; intros (ts & Hts & [= <-]).
    unfold union; cbn [app]; apply set_of_list_In.
    apply (in_set_comprehension _ _ _ Hts); cbn beta.
    rewrite label_last by (destruct row; [simpl in Hk; lia | discriminate]).
    cbn [bind]; replace (length row - 1)%nat with k by lia.
    destruct (S k <? length row)%nat eqn:E'; [apply Nat.ltb_lt in E'; lia|].
    reflexivity.
  - apply Z.eqb_neq in E.
    unfold Seps; rewrite <- Hnum; unfold len.
    destruct (Z.of_nat k =? Z.of_nat (length row) - 1) eqn:E''; [lia|].
    intros Hs; apply (in_set_comprehension _ _ _ Hs); cbn beta.
    replace (Z.of_nat k + 1) with (Z.of_nat (S k)) by lia.
    rewrite (label_at k Hk), (label_at (S k) ltac:(lia)); cbn [bind].
    destruct (S k <? length row)%nat eqn:E'; [reflexivity|].
    apply Nat.ltb_ge in E'; lia.
Qed.

End TrainingDocument.

Section RoundTrip.

Variable set_of_list : list str -> list str.
Hypothesis set_of_list_In : forall l x, In x (set_of_list l) <-> In x l.

(** C1, as the code has it.  [execLR] on a training document returns its
    labelled substrings, attribute by attribute, when the spans of that
    document are sorted, disjoint and inside it, every [left[k]] and
    [right[k]] passed validation (none is the empty fallback), and in that
    document [left[k]] is not found in the left neighbour before the
    occurrence that ends it, nor [right[k]] before the end of the
    attribute. *)
Theorem training_round_trip :
  forall docs labs w i P row,
    learn set_of_list docs labs = Ok w ->
    nth_error docs i = Some P -> nth_error labs i = Some row ->
    len row = num_attributes w ->
    ordered P row ->
    (forall k l r,
        nth_error (left w) k = Some l -> nth_error (right w) k = Some r ->
        IsValidLeft set_of_list w l (Z.of_nat k) = Ok true
        /\ IsValidRight set_of_list w r (Z.of_nat k) = Ok true
        /\ unambiguous P row k l r) ->
    fst (execLR w P)
    = map (fun sp : span => slice P (Some (fst sp)) (Some (snd sp))) row.
Proof.
  intros docs labs w i P row Hw HP Hrow Hnum Hord Hvalid.
  destruct (learn_spec set_of_list docs labs w Hw)
    as (row0 & _ & E1 & E2 & E3 & HlenL & HlenR & _).
  assert (Hlen : length row0 = length row)
    by (rewrite E3 in Hnum; unfold len in Hnum; lia).
  rewrite Hlen in HlenL, HlenR; rewrite <- E1 in Hrow; rewrite <- E2 in HP.
  rewrite <- map_attribute_of.
  apply execLR_labelled; try assumption.
  intros k l r Hl Hr.
  assert (Hk : (k < length row)%nat)
    by (rewrite <- HlenL; apply nth_error_Some; congruence).
  destruct (Hvalid k l r Hl Hr) as (VL & VR & U).
  apply IsValidLeft_true in VL as (nl & Hnl & VL).
  apply IsValidRight_true in VR as (nr & Hnr & VR).
  repeat split; try apply U.
  - specialize (VL _ (left_neighbor_In set_of_list set_of_list_In w i P row
                        HP Hrow Hnum k nl Hk Hnl)).
    unfold ProperSuffix in VL; now apply andb_true_iff in VL as [VL _].
  - apply VR, (right_neighbor_In set_of_list set_of_list_In w i P row
                 HP Hrow Hnum k nr Hk Hnr).
Qed.

End RoundTrip.

Lemma training_round_trip_witness :
  fst (execLR html_learned (lit "<b>Alice</b><i>30</i>"))
  = map (fun sp : span =>
           slice (lit "<b>Alice</b><i>30</i>") (Some (fst sp)) (Some (snd sp)))
        [(3, 8); (15, 17)].
Proof.
  apply (training_round_trip insertion_order insertion_order_In
           html_docs html_labels html_learned 0).
  - exact html_learn.
  - reflexivity.
  - reflexivity.
  - reflexivity.
  - intros [|[|k]] Hk; [vm_compute | vm_compute | simpl in Hk; lia];
      repeat split; discriminate.
  - intros [|[|[|k]]] l r; cbn [nth_error left right html_learned];
      try discriminate; intros [= <-] [= <-];
      (split; [vm_compute; reflexivity|]);
      (split; [vm_compute; reflexivity|]);
      split; vm_compute; discriminate.
Defined.

(** C1 fails as stated.  On the training data of the end-to-end scenario
    [right[1]] is the empty string, the text after the last attribute being
    empty, and [execLR] on the first training document returns the empty
    string for attribute 1, whose labelled span is "30". *)
Lemma training_round_trip_fails :
  learn insertion_order scenario_docs scenario_labels = Ok scenario_learned
  /\ nth_error scenario_docs 0 = Some (lit "Name: Alice Age: 30")
  /\ nth_error scenario_labels 0 = Some [(6, 11); (17, 19)]
  /\ slice (lit "Name: Alice Age: 30") (Some 17) (Some 19) = lit "30"
  /\ fst (execLR scenario_learned (lit "Name: Alice Age: 30"))
     = [lit "Alice"; lit ""].
Proof. repeat split; vm_compute; reflexivity. Qed.

(** Validation alone does not make the delimiters unambiguous: "aa" passes
    [IsValidLeft] for the head "aaa", where it also occurs one position
    earlier, and extraction on the training page returns "aX" for the
    attribute labelled "X". *)
Lemma validated_but_ambiguous :
  learn reverse_insertion_order overlap_docs overlap_labels = Ok overlap_learned
  /\ IsValidLeft reverse_insertion_order overlap_learned (lit "aa") 0 = Ok true
  /\ IsValidRight reverse_insertion_order overlap_learned (lit "-") 0 = Ok true
  /\ fst (execLR overlap_learned (lit "aaaX--")) = [lit "aX"].
Proof. repeat split; vm_compute; reflexivity. Qed.

(** * Further properties of extraction *)

Lemma search_nil s : search s [] = Some O.
Proof. destruct s; reflexivity. Qed.

Lemma find_nil s : find s [] = 0.
Proof. unfold find; now rewrite search_nil. Qed.

Lemma slice_same {A} (s : list A) a : slice s (Some a) (Some a) = [].
Proof. unfold slice; now rewrite Z.sub_diag. Qed.

Lemma slice_is_skipn {A} (s : list A) i :
  exists m, slice s (Some i) None = skipn m s.
Proof.
  unfold slice; set (a := clamp (len s) i).
  exists (Z.to_nat a); apply firstn_all2; rewrite length_skipn.
  unfold len; lia.
Qed.

Lemma slice_occurs (s : str) lo hi : Occurs (slice s lo hi) s.
Proof.
  unfold slice.
  set (a := match lo with Some i => clamp (len s) i | None => 0 end).
  set (b := match hi with Some j => clamp (len s) j | None => len s end).
  exists (firstn (Z.to_nat a) s),
         (skipn (Z.to_nat (b - a)) (skipn (Z.to_nat a) s)).
  now rewrite firstn_skipn, firstn_skipn.
Qed.

Lemma Occurs_trans a b c : Occurs a b -> Occurs b c -> Occurs a c.
Proof.
  intros (x & y & ->) (x' & y' & ->).
  exists (x' ++ x), (y ++ y'); now rewrite <- !app_assoc.
Qed.

Lemma Occurs_refl s : Occurs s s.
Proof. exists [], []; now rewrite app_nil_r. Qed.

Lemma execLR_loop_occurs P lrs :
  forall attr Q,
    Occurs Q P -> (forall v, In v attr -> Occurs v P) ->
    forall v, In v (fst (fold_left execLR_step lrs (attr, Q))) -> Occurs v P.
Proof.
  induction lrs as [|[l r] lrs IH]; intros attr Q HQ Hattr; [exact Hattr|].
  cbn [fold_left execLR_step]; apply IH.
  - eapply Occurs_trans; [apply slice_occurs | exact HQ].
  - intros v Hv; apply in_app_or in Hv as [Hv|[<-|[]]]; [now apply Hattr|].
    eapply Occurs_trans; [apply slice_occurs | exact HQ].
Qed.

(** X1.  Every value [execLR] returns is a piece of the page it was given:
    whatever the delimiters are, found or not, the value occurs in the page as
    a contiguous substring. *)
Theorem execLR_values_occur :
  forall (self : wrapper) (P v : str),
    In v (fst (execLR self P)) -> Occurs v P.
Proof.
  intros self P v; unfold execLR; cbn [fst].
  apply execLR_loop_occurs; [apply Occurs_refl | intros ? []].
Qed.

Lemma execLR_values_occur_witness :
  Occurs (lit "name: Carol") other_template_page.
Proof.
  apply (execLR_values_occur scenario_table other_template_page).
  vm_compute; tauto.
Defined.

(** X2.  The scan never moves backwards: the page searched for the next
    attribute is a suffix of the page searched for this one, also when a
    delimiter was not found and [find] gave [-1]. *)
Theorem cursor_never_backtracks :
  forall (self : wrapper) (P : str) (k : nat),
    exists skipped, cursor self P k = skipped ++ cursor self P (S k).
Proof.
  intros self P k; unfold cursor.
  set (lrs := combine (left self) (right self)).
  destruct (nth_error lrs k) as [[l r]|] eqn:E.
  - rewrite (firstn_succ_nth_error _ _ _ E), fold_left_app; cbn [fold_left].
    destruct (fold_left execLR_step (firstn k lrs) ([], P)) as [attr Q].
    cbn [execLR_step snd].
    destruct (slice_is_skipn Q
                (find (slice Q (Some (find Q l + len l)) None) r
                 + (find Q l + len l))) as [m ->].
    exists (firstn m Q); symmetry; apply firstn_skipn.
  - apply nth_error_None in E.
    rewrite !firstn_all2 by lia; now exists [].
Qed.

(** X3.  An empty right delimiter, the fallback of the learner, always
    extracts the empty string: it is found where the search starts. *)
Theorem execLR_empty_right :
  forall (self : wrapper) (P l : str) (k : nat),
    nth_error (left self) k = Some l ->
    nth_error (right self) k = Some [] ->
    nth_error (fst (execLR self P)) k = Some [].
Proof.
  intros self P l k Hl Hr; unfold execLR; cbn [fst].
  destruct (execLR_loop_nth _ k l [] P (nth_error_combine _ _ _ _ _ Hl Hr))
    as [_ ->].
  cbn zeta; rewrite find_nil, Z.add_0_l.
  now rewrite slice_same.
Qed.

Lemma execLR_empty_right_witness :
  nth_error (fst (execLR scenario_learned scenario_page)) 1 = Some [].
Proof.
  apply (execLR_empty_right scenario_learned scenario_page (lit " Age: ") 1);
    reflexivity.
Defined.

(** * What the sets of the learner hold *)

Lemma label_Ok self i k sp :
  label self (Z.of_nat i) (Z.of_nat k) = Ok sp <->
  exists row, nth_error (labels self) i = Some row
              /\ nth_error row k = Some sp.
Proof.
  unfold label; rewrite bind_Ok, index_nonneg, Nat2Z.id by lia; split.
  - intros (row & Hrow & H); exists row.
    rewrite index_nonneg, Nat2Z.id in H by lia.
    destruct (nth_error (labels self) i); [|discriminate].
    injection Hrow as ->; split; [reflexivity|].
    destruct (nth_error row k); [congruence | discriminate].
  - intros (row & -> & H); exists row; split; [reflexivity|].
    now rewrite index_nonneg, Nat2Z.id, H by lia.
Qed.

Lemma label_last_Ok self i sp :
  label self (Z.of_nat i) (-1) = Ok sp <->
  exists row, nth_error (labels self) i = Some row
              /\ nth_error row (length row - 1) = Some sp.
Proof.
  unfold label; rewrite bind_Ok, index_nonneg, Nat2Z.id by lia; split.
  - intros (row & Hrow & H); exists row.
    destruct (nth_error (labels self) i); [|discriminate].
    injection Hrow as ->; split; [reflexivity|].
    destruct row as [|sp0 row]; [discriminate|].
    rewrite index_last in H by discriminate.
    destruct (nth_error (sp0 :: row) _); [congruence | discriminate].
  - intros (row & -> & H); exists row; split; [reflexivity|].
    destruct row as [|sp0 row]; [discriminate|].
    now rewrite index_last, H by discriminate.
Qed.

Lemma span_at_nth_error row k sp :
  nth_error row k = Some sp -> span_at row k = sp /\ (k < length row)%nat.
Proof.
  intros H; split; [now apply nth_error_nth | apply nth_error_Some; congruence].
Qed.

Section Neighbours.

Variable set_of_list : list str -> list str.
Hypothesis set_of_list_In : forall l x, In x (set_of_list l) <-> In x l.

Lemma set_comprehension_In_nat self f s :
  set_comprehension set_of_list self f = Ok s ->
  forall x,
    In x s <->
    exists i P, nth_error (examples self) i = Some P
                /\ f (Z.of_nat i) P = Ok x.
Proof.
  intros H x.
  rewrite (set_comprehension_In set_of_list set_of_list_In _ _ _ H); split.
  - intros (i & P & Hi & HP & Hf); exists (Z.to_nat i), P.
    now rewrite Z2Nat.id.
  - intros (i & P & HP & Hf); exists (Z.of_nat i), P.
    rewrite Nat2Z.id; repeat split; [lia | |]; assumption.
Qed.

(** X4.  The strings [attributes(k)] holds are exactly the labelled texts of
    attribute [k] in the training documents. *)
Theorem attributes_hold :
  forall (self : wrapper) (k : nat) (ats : list str),
    attributes set_of_list self (Z.of_nat k) = Ok ats ->
    forall a,
      In a ats <->
      exists i P row,
        nth_error (examples self) i = Some P
        /\ nth_error (labels self) i = Some row
        /\ (k < length row)%nat
        /\ a = attribute_of P row k.
Proof.
  intros self k ats H a.
  rewrite (set_comprehension_In_nat _ _ _ H); split.
  - intros (i & P & HP & Hf).
    apply bind_Ok in Hf as (b & Hb & Hf).
    apply bind_Ok in Hf as (e & He & [= <-]).
    assert (e = b) as -> by congruence.
    apply label_Ok in Hb as (row & Hrow & Hk).
    apply span_at_nth_error in Hk as [<- Hk].
    now exists i, P, row.
  - intros (i & P & row & HP & Hrow & Hk & ->); exists i, P; split; [assumption|].
    assert (Hl : label self (Z.of_nat i) (Z.of_nat k) = Ok (span_at row k)).
    { apply label_Ok; exists row; split; [assumption|].
      now apply nth_error_nth'. }
    now rewrite Hl.
Qed.

(** X5.  For an attribute index below [num_attributes], the strings
    [LeftNeighbors(k)] holds are exactly the texts between the attribute before
    [k] and attribute [k] in the training documents; for [k = 0] these are the
    texts before the first attribute, and nothing else: [Seps] of the last
    index is empty. *)
Theorem LeftNeighbors_hold :
  forall (self : wrapper) (k : nat) (ns : list str),
    Z.of_nat k < num_attributes self ->
    LeftNeighbors set_of_list self (Z.of_nat k) = Ok ns ->
    forall s,
      In s ns <->
      exists i P row,
        nth_error (examples self) i = Some P
        /\ nth_error (labels self) i = Some row
        /\ (k < length row)%nat
        /\ s = left_neighbor_of P row k.
Proof.
  intros self k ns Hk; unfold LeftNeighbors, left_neighbor_of.
  destruct k as [|k]; cbn [prev_end].
  - change (Z.of_nat 0 =? 0) with true; cbv iota.
    unfold Seps at 1; rewrite Z.eqb_refl; cbn [bind].
    rewrite bind_Ok; intros (hs & Hhs & [= <-]) s.
    unfold union; cbn [app]; rewrite set_of_list_In.
    rewrite (set_comprehension_In_nat _ _ _ Hhs); split.
    + intros (i & P & HP & Hf).
      apply bind_Ok in Hf as (e & He & [= <-]).
      apply (label_Ok self i 0) in He as (row & Hrow & H0).
      apply span_at_nth_error in H0 as [<- H0].
      exists i, P, row; repeat split; try assumption.
      apply slice_None_0.
    + intros (i & P & row & HP & Hrow & H0 & ->); exists i, P.
      split; [assumption|].
      assert (Hl : label self (Z.of_nat i) 0 = Ok (span_at row 0)).
      { apply (label_Ok self i 0); exists row; split; [assumption|].
        now apply nth_error_nth'. }
      rewrite Hl; cbn [bind]; now rewrite slice_None_0.
  - change (Z.of_nat (S k) =? 0) with false; cbv iota.
    replace (Z.of_nat (S k) - 1) with (Z.of_nat k) by lia.
    unfold Seps.
    destruct (Z.of_nat k =? num_attributes self - 1) eqn:E; [lia|].
    intros Hs s; rewrite (set_comprehension_In_nat _ _ _ Hs).
    replace (Z.of_nat k + 1) with (Z.of_nat (S k)) by lia; split.
    + intros (i & P & HP & Hf).
      apply bind_Ok in Hf as (b & Hb & Hf).
      apply bind_Ok in Hf as (e & He & [= <-]).
      apply label_Ok in Hb as (row & Hrow & Hb).
      apply label_Ok in He as (row' & Hrow' & He).
      assert (row' = row) as -> by congruence.
      apply span_at_nth_error in Hb as [<- _].
      apply span_at_nth_error in He as [<- He].
      now exists i, P, row.
    + intros (i & P & row & HP & Hrow & Hlt & ->); exists i, P.
      split; [assumption|].
      assert (Hb : label self (Z.of_nat i) (Z.of_nat k) = Ok (span_at row k)).
      { apply label_Ok; exists row; split; [assumption|].
        apply nth_error_nth'; lia. }
      assert (He : label self (Z.of_nat i) (Z.of_nat (S k))
                   = Ok (span_at row (S k))).
      { apply label_Ok; exists row; split; [assumption|].
        now apply nth_error_nth'. }
      now rewrite Hb, He.
Qed.

(** X6.  When every label row has [num_attributes] labels, the strings
    [RightNeighbors(k)] holds are exactly the texts between attribute [k] and
    the attribute after it in the training documents, and for the last
    attribute the texts after it up to the end of the document. *)
Theorem RightNeighbors_hold :
  forall (self : wrapper) (k : nat) (ns : list str),
    (forall i row, nth_error (labels self) i = Some row ->
                   len row = num_attributes self) ->
    Z.of_nat k < num_attributes self ->
    RightNeighbors set_of_list self (Z.of_nat k) = Ok ns ->
    forall s,
      In s ns <->
      exists i P row,
        nth_error (examples self) i = Some P
        /\ nth_error (labels self) i = Some row
        /\ s = right_neighbor_of P row k.
Proof.
  intros self k ns Hrows Hk; unfold RightNeighbors, right_neighbor_of.
  destruct (Z.of_nat k =? num_attributes self - 1) eqn:E.
  - apply Z.eqb_eq in E.
    unfold Seps; rewrite Z.eqb_refl; cbn [bind].
    rewrite bind_Ok; intros (ts & Hts & [= <-]) s.
    unfold union; cbn [app]; rewrite set_of_list_In.
    rewrite (set_comprehension_In_nat _ _ _ Hts); split.
    + intros (i & P & HP & Hf).
      apply bind_Ok in Hf as (b & Hb & [= <-]).
      apply label_last_Ok in Hb as (row & Hrow & Hb).
      pose proof (Hrows i row Hrow) as Hn; unfold len in Hn.
      replace (length row - 1)%nat with k in Hb by lia.
      apply span_at_nth_error in Hb as [<- Hb].
      exists i, P, row; repeat split; try assumption.
      destruct (S k <? length row)%nat eqn:E'; [apply Nat.ltb_lt in E'; lia|].
      reflexivity.
    + intros (i & P & row & HP & Hrow & ->); exists i, P.
      split; [assumption|].
      pose proof (Hrows i row Hrow) as Hn; unfold len in Hn.
      assert (Hl : label self (Z.of_nat i) (-1) = Ok (span_at row k)).
      { apply label_last_Ok; exists row; split; [assumption|].
        replace (length row - 1)%nat with k by lia.
        apply nth_error_nth'; lia. }
      rewrite Hl; cbn [bind].
      destruct (S k <? length row)%nat eqn:E'; [apply Nat.ltb_lt in E'; lia|].
      reflexivity.
  - apply Z.eqb_neq in E; unfold Seps.
    destruct (Z.of_nat k =? num_attributes self - 1) eqn:E'; [lia|].
    intros Hs s; rewrite (set_comprehension_In_nat _ _ _ Hs).
    replace (Z.of_nat k + 1) with (Z.of_nat (S k)) by lia; split.
    + intros (i & P & HP & Hf).
      apply bind_Ok in Hf as (b & Hb & Hf).
      apply bind_Ok in Hf as (e & He & [= <-]).
      apply label_Ok in Hb as (row & Hrow & Hb).
      apply label_Ok in He as (row' & Hrow' & He).
      assert (row' = row) as -> by congruence.
      apply span_at_nth_error in Hb as [<- _].
      apply span_at_nth_error in He as [<- He].
      exists i, P, row; repeat split; try assumption.
      apply Nat.ltb_lt in He; now rewrite He.
    + intros (i & P & row & HP & Hrow & ->); exists i, P.
      split; [assumption|].
      pose proof (Hrows i row Hrow) as Hn; unfold len in Hn.
      assert (Hb : label self (Z.of_nat i) (Z.of_nat k) = Ok (span_at row k)).
      { apply label_Ok; exists row; split; [assumption|].
        apply nth_error_nth'; lia. }
      assert (He : label self (Z.of_nat i) (Z.of_nat (S k))
                   = Ok (span_at row (S k))).
      { apply label_Ok; exists row; split; [assumption|].
        apply nth_error_nth'; lia. }
      rewrite Hb, He; cbn [bind].
      destruct (S k <? length row)%nat eqn:E''; [reflexivity|].
      apply Nat.ltb_ge in E''; lia.
Qed.

End Neighbours.

Lemma attributes_hold_witness :
  exists i P row,
    nth_error (examples scenario_learned) i = Some P
    /\ nth_error (labels scenario_learned) i = Some row
    /\ (0 < length row)%nat
    /\ lit "Bob" = attribute_of P row 0.
Proof.
  apply (proj1 (attributes_hold insertion_order insertion_order_In
                  scenario_learned 0 [lit "Alice"; lit "Bob"] eq_refl
                  (lit "Bob"))).
  right; left; reflexivity.
Defined.

Lemma LeftNeighbors_hold_witness :
  exists i P row,
    nth_error (examples scenario_learned) i = Some P
    /\ nth_error (labels scenario_learned) i = Some row
    /\ (1 < length row)%nat
    /\ lit " Age: " = left_neighbor_of P row 1.
Proof.
  apply (proj1 (LeftNeighbors_hold insertion_order insertion_order_In
                  scenario_learned 1 [lit " Age: "] ltac:(cbn; lia) eq_refl
                  (lit " Age: "))).
  left; reflexivity.
Defined.

Lemma RightNeighbors_hold_witness :
  exists i P row,
    nth_error (examples html_learned) i = Some P
    /\ nth_error (labels html_learned) i = Some row
    /\ lit "</i>" = right_neighbor_of P row 1.
Proof.
  apply (proj1 (RightNeighbors_hold insertion_order insertion_order_In
                  html_learned 1 [lit "</i>"]
                  ltac:(intros i row H; apply nth_error_In in H;
                        destruct H as [<-|[<-|[]]]; reflexivity)
                  ltac:(cbn; lia) eq_refl (lit "</i>"))).
  left; reflexivity.
Defined.

(** * What validation checks *)

Section Validation.

Variable set_of_list : list str -> list str.

(** X7.  [IsValidLeft(u, k)] returns [True] exactly when [u] is a proper
    suffix, in the sense of [ProperSuffix], of every left neighbour of
    attribute [k] and, for the first attribute, occurs in no document tail;
    otherwise it returns [False]. *)
Theorem IsValidLeft_spec :
  forall (self : wrapper) (u : str) (k : Z) (ns ts : list str),
    LeftNeighbors set_of_list self k = Ok ns ->
    (k = 0 -> example_tails set_of_list self = Ok ts) ->
    exists b,
      IsValidLeft set_of_list self u k = Ok b
      /\ (b = true <->
          (forall s, In s ns -> ProperSuffix u s = true)
          /\ (k = 0 -> forall t, In t ts -> ~ Occurs u t)).
Proof.
  intros self u k ns ts Hns Hts; unfold IsValidLeft; rewrite Hns; cbn [bind].
  destruct (forallb (ProperSuffix u) ns) eqn:E; cbn [negb].
  - pose proof (proj1 (forallb_forall _ _) E) as Hall.
    destruct (k =? 0) eqn:Ek.
    + apply Z.eqb_eq in Ek; rewrite (Hts Ek); cbn [bind].
      eexists; split; [reflexivity|].
      rewrite negb_true_iff; split.
      * intros Hex; split; [assumption|]; intros _ t Ht Hocc.
        apply contains_iff in Hocc.
        assert (existsb (contains u) ts = true); [|congruence].
        apply existsb_exists; now exists t.
      * intros [_ Hno]; destruct (existsb (contains u) ts) eqn:Ex;
          [|reflexivity].
        apply existsb_exists in Ex as (t & Ht & Hc).
        apply contains_iff in Hc; now destruct (Hno Ek t Ht).
    + apply Z.eqb_neq in Ek; exists true; split; [reflexivity|].
      split; [|reflexivity]; intros _; split; [assumption | congruence].
  - exists false; split; [reflexivity|]; split; [discriminate|].
    intros [Hall _]; apply forallb_forall in Hall; congruence.
Qed.

(** X8.  [IsValidRight(u, k)] returns [True] exactly when [u] occurs in no
    labelled text of attribute [k] and is a prefix of every right neighbour
    of attribute [k]; otherwise it returns [False]. *)
Theorem IsValidRight_spec :
  forall (self : wrapper) (u : str) (k : Z) (ats ns : list str),
    attributes set_of_list self k = Ok ats ->
    RightNeighbors set_of_list self k = Ok ns ->
    exists b,
      IsValidRight set_of_list self u k = Ok b
      /\ (b = true <->
          (forall a, In a ats -> ~ Occurs u a)
          /\ (forall s, In s ns -> exists t, s = u ++ t)).
Proof.
  intros self u k ats ns Hats Hns; unfold IsValidRight.
  rewrite Hats; cbn [bind].
  destruct (existsb (contains u) ats) eqn:Ex.
  - exists false; split; [reflexivity|]; split; [discriminate|].
    intros [Hno _]; apply existsb_exists in Ex as (a & Ha & Hc).
    apply contains_iff in Hc; now destruct (Hno a Ha).
  - rewrite Hns; cbn [bind]; eexists; split; [reflexivity|].
    rewrite forallb_forall; split.
    + intros Hall; split.
      * intros a Ha Hocc; apply contains_iff in Hocc.
        assert (existsb (contains u) ats = true); [|congruence].
        apply existsb_exists; now exists a.
      * intros s Hs; apply startswith_iff, Hall, Hs.
    + intros [_ Hall] s Hs; apply startswith_iff, Hall, Hs.
Qed.

End Validation.

Lemma IsValidLeft_spec_witness :
  exists b,
    IsValidLeft insertion_order scenario_learned (lit "ame: ") 0 = Ok b
    /\ (b = true <->
        (forall s, In s [lit "Name: "] ->
                   ProperSuffix (lit "ame: ") s = true)
        /\ ((0 = 0) -> forall t, In t [lit ""] -> ~ Occurs (lit "ame: ") t)).
Proof.
  apply (IsValidLeft_spec insertion_order scenario_learned (lit "ame: ") 0
           [lit "Name: "] [lit ""]); reflexivity.
Defined.

Lemma IsValidRight_spec_witness :
  exists b,
    IsValidRight insertion_order scenario_learned (lit " Ag") 0 = Ok b
    /\ (b = true <->
        (forall a, In a [lit "Alice"; lit "Bob"] -> ~ Occurs (lit " Ag") a)
        /\ (forall s, In s [lit " Age: "] -> exists t, s = lit " Ag" ++ t)).
Proof.
  apply (IsValidRight_spec insertion_order scenario_learned (lit " Ag") 0
           [lit "Alice"; lit "Bob"] [lit " Age: "]); reflexivity.
Defined.

(** * Construction: what it keeps and when it raises *)

Lemma mapM_Raise {A B} (f : A -> result B) l e :
  (forall x, In x l -> f x = Raise e \/ exists y, f x = Ok y) ->
  (exists x, In x l /\ f x = Raise e) ->
  mapM f l = Raise e.
Proof.
  induction l as [|x l IH]; intros Hall (x0 & Hin & Hx0); [destruct Hin|].
  cbn [mapM]; destruct (Hall x (or_introl eq_refl)) as [->|[y Hy]];
    [reflexivity|].
  rewrite Hy; cbn [bind]; rewrite IH; [reflexivity | |].
  - intros z Hz; apply Hall; now right.
  - destruct Hin as [<-|Hin]; [congruence | now exists x0].
Qed.

Lemma index_Raise {A} (l : list A) i e : index l i = Raise e -> e = IndexError.
Proof.
  unfold index; destruct (_ <? 0); [congruence|].
  destruct (nth_error l _); congruence.
Qed.

Lemma label_Raise self i k e : label self i k = Raise e -> e = IndexError.
Proof.
  unfold label; destruct (index (labels self) i) as [row|e'] eqn:E; cbn [bind].
  - apply index_Raise.
  - intros [= <-]; now apply index_Raise in E.
Qed.

Lemma range_pos n : 0 < n -> exists ks, range n = 0 :: ks.
Proof.
  intros Hn; unfold range.
  destruct (Z.to_nat n) as [|m] eqn:E; [lia|]; cbn; now eexists.
Qed.

Section Construction.

Variable set_of_list : list str -> list str.

(** X9.  A constructed wrapper keeps the training data it was given, has
    [len(labels[0])] as [num_attributes], holds one left and one right
    delimiter per attribute, and [execLR] returns exactly that many values on
    every page. *)
Theorem learn_keeps :
  forall docs labs w P,
    learn set_of_list docs labs = Ok w ->
    labels w = labs /\ examples w = docs
    /\ num_attributes w = len (hd [] labs)
    /\ len (left w) = num_attributes w
    /\ len (right w) = num_attributes w
    /\ len (fst (execLR w P)) = num_attributes w.
Proof.
  intros docs labs w P Hw.
  destruct (learn_holds _ _ _ _ Hw) as (E1 & E2 & E3).
  destruct (learn_spec set_of_list docs labs w Hw)
    as (row0 & _ & _ & _ & E3' & HL & HR & _).
  unfold len in *; repeat split; try assumption; try lia.
  unfold execLR; cbn [fst]; rewrite execLR_loop_length, length_combine.
  cbn; lia.
Qed.

(** X10.  The documents are read in the order of the paths and before any
    label is looked at: when reading a path raises an exception and every
    path before it can be read, [__init__] raises that exception, whatever
    the labels hold beyond being non-empty and whatever the later paths
    are. *)
Theorem init_unreadable_path :
  forall fs before path after labs e,
    labs <> [] ->
    (forall p, In p before -> exists text, fs p = Ok text) ->
    fs path = Raise e ->
    init set_of_list fs (before ++ path :: after) labs = Raise e.
Proof.
  intros fs before path after labs e Hlabs Hbefore Hpath; unfold init.
  destruct (len labs =? 0) eqn:E;
    [destruct labs; [congruence | unfold len in E; cbn in E; lia]|].
  assert (H : mapM (read_file fs) (before ++ path :: after) = Raise e);
    [|now rewrite H].
  induction before as [|p before IH]; cbn [app mapM].
  - unfold read_file at 1; now rewrite Hpath.
  - destruct (Hbefore p (or_introl eq_refl)) as [text Hp].
    unfold read_file at 1; rewrite Hp; cbn [bind].
    rewrite IH; [reflexivity|].
    intros q Hq; apply Hbefore; now right.
Qed.

(** X11.  With more documents than label rows and at least one attribute,
    construction raises [IndexError]: the head of a document without a row
    cannot be computed. *)
Theorem learn_missing_labels :
  forall docs labs,
    0 < len (hd [] labs) ->
    (length labs < length docs)%nat ->
    learn set_of_list docs labs = Raise IndexError.
Proof.
  intros docs labs Hn Hlen; unfold learn.
  destruct labs as [|row0 labs']; [cbn in Hn; lia|].
  cbn [index Z.ltb Z.compare Z.to_nat nth_error bind hd] in *.
  set (self := blank docs (row0 :: labs') (len row0)).
  unfold GetValidLeft; cbn [num_attributes blank self].
  destruct (range_pos _ Hn) as [ks ->]; cbn [for_each].
  assert (H : GetValidLeft_step set_of_list self 0 = Raise IndexError);
    [|now rewrite H].
  unfold GetValidLeft_step, GetValidLeft_inner, LeftCandidates, LeftNeighbors.
  cbn [Z.eqb]; unfold Seps at 1; rewrite Z.eqb_refl; cbn [bind].
  unfold example_heads, set_comprehension.
  rewrite (mapM_Raise _ _ IndexError); [reflexivity | |].
  - intros [i P] _; cbn [fst snd].
    destruct (label self i 0) as [sp|e] eqn:E; cbn [bind];
      [right; now eexists | left].
    now rewrite (label_Raise _ _ _ _ E).
  - destruct (nth_error docs (length (row0 :: labs'))) as [P|] eqn:EP;
      [|apply nth_error_None in EP; lia].
    exists (Z.of_nat (length (row0 :: labs')), P); split.
    + apply in_enumerate; rewrite Nat2Z.id; split; [lia | assumption].
    + cbn [fst snd]; unfold label; rewrite index_nonneg, Nat2Z.id by lia.
      cbn [labels self blank].
      now rewrite (proj2 (nth_error_None _ _) (Nat.le_refl _)).
Qed.

Hypothesis set_of_list_In : forall l x, In x (set_of_list l) <-> In x l.

(** X12.  With labels for at least one attribute but no path at all,
    [__init__] raises [ValueError] as well: it comes from [min] over an empty
    set of neighbours, not from the test on the labels. *)
Theorem init_no_documents :
  forall fs labs,
    0 < len (hd [] labs) ->
    init set_of_list fs [] labs = Raise ValueError.
Proof.
  intros fs labs Hn; unfold init.
  destruct labs as [|row0 labs']; [cbn in Hn; lia|].
  destruct (len (row0 :: labs') =? 0) eqn:E; [reflexivity|].
  cbn [mapM bind]; unfold learn.
  cbn [index Z.ltb Z.compare Z.to_nat nth_error bind hd] in *.
  set (self := blank [] (row0 :: labs') (len row0)).
  unfold GetValidLeft; cbn [num_attributes blank self].
  destruct (range_pos _ Hn) as [ks ->]; cbn [for_each].
  assert (H : GetValidLeft_step set_of_list self 0 = Raise ValueError);
    [|now rewrite H].
  unfold GetValidLeft_step, GetValidLeft_inner, LeftCandidates, LeftNeighbors.
  cbn [Z.eqb]; unfold Seps at 1; rewrite Z.eqb_refl; cbn [bind].
  unfold example_heads, set_comprehension; cbn [self blank examples].
  change (enumerate (@nil str)) with (@nil (Z * str)); cbn [mapM bind].
  unfold union; cbn [app].
  now rewrite !(set_of_list_nil set_of_list set_of_list_In).
Qed.

End Construction.

Lemma learn_keeps_witness :
  len (fst (execLR html_learned scenario_page)) = num_attributes html_learned.
Proof.
  apply (learn_keeps insertion_order html_docs html_labels html_learned
           scenario_page html_learn).
Defined.

Lemma init_unreadable_path_witness :
  init insertion_order
    (fun path => if str_eqb path (lit "a.html") then Ok (lit "<b>x</b>")
                 else if str_eqb path (lit "b.html")
                      then Raise UnicodeDecodeError
                      else Raise OSError)
    ([lit "a.html"] ++ lit "b.html" :: [lit "c.html"]) [[(3, 4)]]
  = Raise UnicodeDecodeError.
Proof.
  apply init_unreadable_path;
    [ discriminate
    | intros p [<- | []]; eexists; reflexivity
    | reflexivity ].
Defined.

Lemma learn_missing_labels_witness :
  learn insertion_order [lit "a-b"; lit "c-d"] [[(0, 1); (2, 3)]]
  = Raise IndexError.
Proof.
  apply learn_missing_labels; [reflexivity | cbn; lia].
Defined.

Lemma init_no_documents_witness :
  init insertion_order (fun _ => Raise OSError) [] [[(0, 1)]] = Raise ValueError.
Proof.
  apply (init_no_documents insertion_order insertion_order_In); reflexivity.
Defined.

(** * What the learned delimiters satisfy *)

Section LearnedDelimiters.

Variable set_of_list : list str -> list str.
Hypothesis set_of_list_In : forall l x, In x (set_of_list l) <-> In x l.

Lemma attribute_In self i P row k ats :
  nth_error (examples self) i = Some P ->
  nth_error (labels self) i = Some row ->
  (k < length row)%nat ->
  attributes set_of_list self (Z.of_nat k) = Ok ats ->
  In (attribute_of P row k) ats.
Proof.
  intros HP Hrow Hk Hats.
  apply (in_set_comprehension set_of_list set_of_list_In self i P HP _ _ _ Hats).
  cbn beta; now rewrite (label_at self i row Hrow k Hk).
Qed.

Lemma tail_In self i P row ts :
  nth_error (examples self) i = Some P ->
  nth_error (labels self) i = Some row ->
  row <> [] ->
  example_tails set_of_list self = Ok ts ->
  In (slice P (Some (snd (span_at row (length row - 1)))) None) ts.
Proof.
  intros HP Hrow Hne Hts.
  apply (in_set_comprehension set_of_list set_of_list_In self i P HP _ _ _ Hts).
  cbn beta.
  assert (Hl : label self (Z.of_nat i) (-1)
               = Ok (span_at row (length row - 1))).
  { apply label_last_Ok; exists row; split; [assumption|].
    apply nth_error_nth'; destruct row; [congruence | simpl; lia]. }
  now rewrite Hl.
Qed.

Lemma IsValidLeft_true_tails self u ts :
  IsValidLeft set_of_list self u 0 = Ok true ->
  example_tails set_of_list self = Ok ts ->
  forall t, In t ts -> ~ Occurs u t.
Proof.
  unfold IsValidLeft; rewrite bind_Ok; intros (ns & _ & H) Hts t Ht Hocc.
  destruct (negb (forallb (ProperSuffix u) ns)); [discriminate|].
  cbn [Z.eqb] in H; rewrite Hts in H; cbn [bind] in H.
  injection H as H; apply negb_true_iff in H.
  assert (existsb (contains u) ts = true); [|congruence].
  apply existsb_exists; exists t; split; [assumption | now apply contains_iff].
Qed.

Lemma IsValidLeft_true_tails_Ok self u :
  IsValidLeft set_of_list self u 0 = Ok true ->
  exists ts, example_tails set_of_list self = Ok ts.
Proof.
  unfold IsValidLeft; rewrite bind_Ok; intros (ns & _ & H).
  destruct (negb (forallb (ProperSuffix u) ns)); [discriminate|].
  cbn [Z.eqb] in H.
  destruct (example_tails set_of_list self) as [ts|]; [now exists ts|].
  discriminate.
Qed.

Lemma IsValidRight_true_attributes self u k :
  IsValidRight set_of_list self u k = Ok true ->
  exists ats,
    attributes set_of_list self k = Ok ats
    /\ forall a, In a ats -> ~ Occurs u a.
Proof.
  unfold IsValidRight; rewrite bind_Ok; intros (ats & Hats & H).
  exists ats; split; [assumption|]; intros a Ha Hocc.
  destruct (existsb (contains u) ats) eqn:E; [discriminate|].
  assert (existsb (contains u) ats = true); [|congruence].
  apply existsb_exists; exists a; split; [assumption | now apply contains_iff].
Qed.

(** X13.  After construction, in every training document whose row has
    [num_attributes] labels: a non-empty [left[k]] is a proper suffix, in the
    sense of [ProperSuffix], of the text in front of attribute [k], and for
    [k = 0] it occurs nowhere after the last attribute; a non-empty [right[k]]
    starts the text after attribute [k], is strictly shorter than it, and does
    not occur in the attribute itself. *)
Theorem learned_delimiters_fit :
  forall docs labs w i P row k,
    learn set_of_list docs labs = Ok w ->
    nth_error docs i = Some P -> nth_error labs i = Some row ->
    len row = num_attributes w ->
    (k < length row)%nat ->
    (forall l, nth_error (left w) k = Some l -> l <> [] ->
       ProperSuffix l (left_neighbor_of P row k) = true
       /\ (k = 0%nat ->
           ~ Occurs l (slice P (Some (snd (span_at row (length row - 1))))
                         None)))
    /\ (forall r, nth_error (right w) k = Some r -> r <> [] ->
          (exists t, t <> [] /\ right_neighbor_of P row k = r ++ t)
          /\ ~ Occurs r (attribute_of P row k)).
Proof.
  intros docs labs w i P row k Hw HP Hrow Hnum Hk.
  destruct (learn_spec set_of_list docs labs w Hw)
    as (row0 & _ & E1 & E2 & E3 & _ & _ & H).
  rewrite <- E1 in Hrow; rewrite <- E2 in HP.
  destruct (H (Z.of_nat k)) as ((fl & Hfl & Hl) & (fr & Hfr & Hr)).
  { rewrite <- E3, <- Hnum; unfold len; lia. }
  rewrite Nat2Z.id in Hl, Hr; split.
  - intros l Hl' Hne; rewrite Hl in Hl'; injection Hl' as Hl'.
    destruct fl as [u|]; [subst u | congruence].
    apply GetValidLeft_inner_Some in Hfl as (_ & _ & _ & _ & _ & _ & Hv).
    split.
    + destruct (IsValidLeft_true set_of_list _ _ _ Hv) as (ns & Hns & Hall).
      apply Hall, (left_neighbor_In set_of_list set_of_list_In w i P row
                     HP Hrow Hnum k ns Hk Hns).
    + intros ->; cbn [Z.of_nat] in Hv.
      destruct (IsValidLeft_true_tails_Ok _ _ Hv) as [ts Hts].
      apply (IsValidLeft_true_tails _ _ _ Hv Hts).
      apply (tail_In w i P row ts HP Hrow); [|assumption].
      destruct row; [simpl in Hk; lia | discriminate].
  - intros r Hr' Hne; rewrite Hr in Hr'; injection Hr' as Hr'.
    destruct fr as [u|]; [subst u | congruence].
    apply GetValidRight_inner_Some in Hfr
      as (cands & pre & post & Hc & Ec & _ & Hv).
    split.
    + destruct (RightCandidates_spec set_of_list set_of_list_In _ _ _ Hc)
        as (ns & shortest & Hns & Hmin & _ & Hle & Hcands).
      assert (Hin : In r cands) by (rewrite Ec; apply in_elt).
      apply Hcands in Hin as (t0 & Ht0 & Es).
      destruct (IsValidRight_true set_of_list _ _ _ Hv) as (ns' & Hns' & Hall).
      assert (ns' = ns) as -> by congruence.
      pose proof (right_neighbor_In set_of_list set_of_list_In w i P row
                    HP Hrow Hnum k ns Hk Hns) as Hn.
      pose proof (Hall _ Hn) as Hpre; apply startswith_iff in Hpre as [t Ht].
      exists t; split; [|assumption].
      specialize (Hle _ Hn); rewrite Ht, Es, !length_app in Hle.
      intros ->; destruct t0; [congruence | simpl in Hle; lia].
    + destruct (IsValidRight_true_attributes _ _ _ Hv) as (ats & Hats & Hno).
      apply Hno, (attribute_In w i P row k ats HP Hrow Hk Hats).
Qed.

(** X14.  After construction [left[k]] is the empty string exactly when every
    left candidate of attribute [k] failed [IsValidLeft]: no candidate is
    empty, so a chosen delimiter never looks like the fallback. *)
Theorem left_fallback_iff :
  forall docs labs w k,
    learn set_of_list docs labs = Ok w ->
    0 <= k < num_attributes w ->
    (nth_error (left w) (Z.to_nat k) = Some [] <->
     exists cands,
       LeftCandidates set_of_list w k = Ok cands
       /\ forall u, In u cands -> IsValidLeft set_of_list w u k = Ok false).
Proof.
  intros docs labs w k Hw Hk.
  destruct (learn_spec set_of_list docs labs w Hw)
    as (row0 & _ & _ & _ & E3 & _ & _ & H).
  destruct (H k ltac:(lia)) as ((fl & Hfl & Hl) & _); rewrite Hl; split.
  - intros [= E]; destruct fl as [u|].
    + subst u; apply GetValidLeft_inner_Some in Hfl
        as (cands & pre & post & Hc & Ec & _ & _).
      destruct (LeftCandidates_spec set_of_list set_of_list_In _ _ _ Hc)
        as (ns & shortest & _ & _ & _ & _ & Hcands).
      assert (Hin : In [] cands) by (rewrite Ec; apply in_elt).
      apply Hcands in Hin as [Hne _]; congruence.
    + unfold GetValidLeft_inner in Hfl.
      apply bind_Ok in Hfl as (cands & Hc & Hfl).
      exists cands; split; [assumption | now apply first_valid_None].
  - intros (cands & Hc & Hall); destruct fl as [u|]; [exfalso|reflexivity].
    apply GetValidLeft_inner_Some in Hfl
      as (cands' & pre & post & Hc' & Ec & _ & Hv).
    assert (cands' = cands) as -> by congruence.
    specialize (Hall u ltac:(rewrite Ec; apply in_elt)); congruence.
Qed.

End LearnedDelimiters.

Lemma learned_delimiters_fit_witness :
  ProperSuffix (lit "</b><i>") (left_neighbor_of (lit "<b>Bob</b><i>45</i>")
                                 [(3, 6); (13, 15)] 1) = true.
Proof.
  refine (proj1 (proj1 (learned_delimiters_fit insertion_order
                          insertion_order_In html_docs html_labels
                          html_learned 1 (lit "<b>Bob</b><i>45</i>")
                          [(3, 6); (13, 15)] 1 html_learn eq_refl eq_refl
                          eq_refl _)
                   (lit "</b><i>") eq_refl _)).
  - cbn; lia.
  - discriminate.
Defined.

Lemma left_fallback_iff_witness :
  nth_error (left one_doc_learned) (Z.to_nat 0) = Some [] <->
  exists cands,
    LeftCandidates insertion_order one_doc_learned 0 = Ok cands
    /\ forall u, In u cands ->
                 IsValidLeft insertion_order one_doc_learned u 0 = Ok false.
Proof.
  apply (left_fallback_iff insertion_order insertion_order_In
           one_doc one_doc_labels one_doc_learned 0).
  - vm_compute; reflexivity.
  - cbn; lia.
Defined.

(** * Independence of the iteration order of sets *)

Lemma forallb_members {A} (P : A -> bool) a b :
  (forall x, In x a <-> In x b) -> forallb P a = forallb P b.
Proof.
  intros H; apply eq_true_iff_eq; rewrite !forallb_forall; split;
    intros Hall x Hx; apply Hall, H, Hx.
Qed.

Lemma existsb_members {A} (P : A -> bool) a b :
  (forall x, In x a <-> In x b) -> existsb P a = existsb P b.
Proof.
  intros H; apply eq_true_iff_eq; rewrite !existsb_exists; split;
    intros (x & Hx & Hp); exists x; split; try assumption; now apply H.
Qed.

Section OrderIndependence.

Variables set_of_list set_of_list' : list str -> list str.
Hypothesis set_of_list_In : forall l x, In x (set_of_list l) <-> In x l.
Hypothesis set_of_list_In' : forall l x, In x (set_of_list' l) <-> In x l.

Lemma set_comprehension_members self f :
  same_members (set_comprehension set_of_list self f)
               (set_comprehension set_of_list' self f).
Proof.
  unfold set_comprehension; destruct (mapM _ _) as [xs|e]; cbn; [|reflexivity].
  intros x; now rewrite set_of_list_In, set_of_list_In'.
Qed.

Lemma attributes_members self k :
  same_members (attributes set_of_list self k) (attributes set_of_list' self k).
Proof. apply set_comprehension_members. Qed.

Lemma example_heads_members self :
  same_members (example_heads set_of_list self) (example_heads set_of_list' self).
Proof. apply set_comprehension_members. Qed.

Lemma example_tails_members self :
  same_members (example_tails set_of_list self) (example_tails set_of_list' self).
Proof. apply set_comprehension_members. Qed.

Lemma Seps_members self k :
  same_members (Seps set_of_list self k) (Seps set_of_list' self k).
Proof.
  unfold Seps; destruct (k =? num_attributes self - 1);
    [cbn; tauto | apply set_comprehension_members].
Qed.

Lemma union_members ra ra' rb rb' :
  same_members ra ra' -> same_members rb rb' ->
  same_members (a <- ra ;; b <- rb ;; Ok (union set_of_list a b))
               (a <- ra' ;; b <- rb' ;; Ok (union set_of_list' a b)).
Proof.
  destruct ra as [a|e], ra' as [a'|e']; cbn; try tauto.
  intros Ha; destruct rb as [b|e], rb' as [b'|e']; cbn; try tauto.
  intros Hb x; unfold union.
  rewrite set_of_list_In, set_of_list_In', !in_app_iff, Ha, Hb; tauto.
Qed.

Lemma LeftNeighbors_members self k :
  same_members (LeftNeighbors set_of_list self k)
               (LeftNeighbors set_of_list' self k).
Proof.
  unfold LeftNeighbors; destruct (k =? 0); [|apply Seps_members].
  apply union_members; [apply Seps_members | apply example_heads_members].
Qed.

Lemma RightNeighbors_members self k :
  same_members (RightNeighbors set_of_list self k)
               (RightNeighbors set_of_list' self k).
Proof.
  unfold RightNeighbors; destruct (k =? num_attributes self - 1);
    [|apply Seps_members].
  apply union_members; [apply Seps_members | apply example_tails_members].
Qed.

Lemma IsValidLeft_order self u k :
  IsValidLeft set_of_list self u k = IsValidLeft set_of_list' self u k.
Proof.
  unfold IsValidLeft.
  pose proof (LeftNeighbors_members self k) as Hn.
  destruct (LeftNeighbors set_of_list self k) as [ns|e],
           (LeftNeighbors set_of_list' self k) as [ns'|e'];
    cbn in Hn |- *; try tauto; [|congruence].
  rewrite (forallb_members _ _ _ Hn).
  destruct (negb (forallb (ProperSuffix u) ns')); [reflexivity|].
  destruct (k =? 0); [|reflexivity].
  pose proof (example_tails_members self) as Ht.
  destruct (example_tails set_of_list self) as [ts|e],
           (example_tails set_of_list' self) as [ts'|e'];
    cbn in Ht |- *; try tauto; [|congruence].
  now rewrite (existsb_members _ _ _ Ht).
Qed.

Lemma IsValidRight_order self u k :
  IsValidRight set_of_list self u k = IsValidRight set_of_list' self u k.
Proof.
  unfold IsValidRight.
  pose proof (attributes_members self k) as Ha.
  destruct (attributes set_of_list self k) as [ats|e],
           (attributes set_of_list' self k) as [ats'|e'];
    cbn in Ha |- *; try tauto; [|congruence].
  rewrite (existsb_members _ _ _ Ha).
  destruct (existsb (contains u) ats'); [reflexivity|].
  pose proof (RightNeighbors_members self k) as Hn.
  destruct (RightNeighbors set_of_list self k) as [ns|e],
           (RightNeighbors set_of_list' self k) as [ns'|e'];
    cbn in Hn |- *; try tauto; [|congruence].
  now rewrite (forallb_members _ _ _ Hn).
Qed.

(** X15.  What validation returns does not depend on the order sets iterate
    in: for two iteration orders [IsValidLeft] returns the same Boolean or
    raises the same exception, and so does [IsValidRight]. *)
Theorem validation_order_independent :
  forall (self : wrapper) (u : str) (k : Z),
    IsValidLeft set_of_list self u k = IsValidLeft set_of_list' self u k
    /\ IsValidRight set_of_list self u k = IsValidRight set_of_list' self u k.
Proof.
  intros self u k; split; [apply IsValidLeft_order | apply IsValidRight_order].
Qed.

End OrderIndependence.

Lemma validation_order_independent_witness :
  IsValidLeft insertion_order scenario_learned (lit ": ") 1
  = IsValidLeft reverse_insertion_order scenario_learned (lit ": ") 1
  /\ IsValidRight insertion_order scenario_learned (lit ": ") 1
     = IsValidRight reverse_insertion_order scenario_learned (lit ": ") 1.
Proof.
  exact (validation_order_independent insertion_order reverse_insertion_order
           insertion_order_In reverse_insertion_order_In
           scenario_learned (lit ": ") 1).
Defined.


Lemma inner_left_data s self self2 k :
  labels self = labels self2 -> examples self = examples self2 ->
  num_attributes self = num_attributes self2 ->
  GetValidLeft_inner s self k = GetValidLeft_inner s self2 k.
Proof.
  destruct self, self2; cbn; intros -> -> ->; reflexivity.
Qed.

Lemma inner_right_data s self self2 k :
  labels self = labels self2 -> examples self = examples self2 ->
  num_attributes self = num_attributes self2 ->
  GetValidRight_inner s self k = GetValidRight_inner s self2 k.
Proof.
  destruct self, self2; cbn; intros -> -> ->; reflexivity.
Qed.

Lemma IsValidLeft_total_of_true s self u k :
  IsValidLeft s self u k = Ok true ->
  forall v, exists b, IsValidLeft s self v k = Ok b.
Proof.
  unfold IsValidLeft; intros H v.
  destruct (LeftNeighbors s self k) as [ns|]; [cbn [bind] in *|discriminate].
  destruct (negb (forallb (ProperSuffix u) ns)); [discriminate|].
  destruct (negb (forallb (ProperSuffix v) ns)); [now eexists|].
  destruct (k =? 0); [|now eexists].
  destruct (example_tails s self); [cbn; now eexists | discriminate].
Qed.

Lemma IsValidLeft_not_all s self v k ns :
  LeftNeighbors s self k = Ok ns ->
  forallb (ProperSuffix v) ns = false ->
  IsValidLeft s self v k = Ok false.
Proof. intros Hns H; unfold IsValidLeft; now rewrite Hns; cbn; rewrite H. Qed.

Lemma IsValidRight_total_of_Ok s self u k b :
  IsValidRight s self u k = Ok b ->
  (exists ns, RightNeighbors s self k = Ok ns) ->
  forall v, exists b', IsValidRight s self v k = Ok b'.
Proof.
  unfold IsValidRight; intros H [ns Hns] v.
  destruct (attributes s self k) as [ats|]; [cbn [bind] in *|discriminate].
  destruct (existsb (contains v) ats); [now eexists|].
  rewrite Hns; cbn; now eexists.
Qed.

Lemma min_by_len_members ns ns' m :
  (forall x : str, In x ns <-> In x ns') ->
  min_by_len ns = Ok m ->
  exists m', min_by_len ns' = Ok m' /\ length m' = length m.
Proof.
  intros Hmem Hm; destruct (min_by_len_spec _ _ Hm) as [Hin Hle].
  assert (Hne : ns' <> []) by (intros ->; now apply Hmem in Hin).
  destruct (min_by_len_total ns' Hne) as [m' Hm'].
  destruct (min_by_len_spec _ _ Hm') as [Hin' Hle'].
  exists m'; split; [assumption|].
  apply Nat.le_antisymm; [apply Hle', Hmem, Hin | apply Hle, Hmem, Hin'].
Qed.

Section FallbackOrder.

Variables set_of_list set_of_list' : list str -> list str.
Hypothesis set_of_list_In : forall l x, In x (set_of_list l) <-> In x l.
Hypothesis set_of_list_In' : forall l x, In x (set_of_list' l) <-> In x l.

Lemma LeftCandidates_order self k cands :
  LeftCandidates set_of_list self k = Ok cands ->
  exists ns ns' shortest shortest' cands',
    LeftNeighbors set_of_list self k = Ok ns
    /\ LeftNeighbors set_of_list' self k = Ok ns'
    /\ (forall x, In x ns <-> In x ns')
    /\ In shortest ns /\ In shortest' ns'
    /\ LeftCandidates set_of_list' self k = Ok cands'
    /\ (forall u, In u cands <-> u <> [] /\ exists p, shortest = p ++ u)
    /\ (forall u, In u cands' <-> u <> [] /\ exists p, shortest' = p ++ u).
Proof.
  intros Hc.
  destruct (LeftCandidates_spec set_of_list set_of_list_In _ _ _ Hc)
    as (ns & shortest & Hns & Hmin & Hin & _ & Hcands).
  pose proof (LeftNeighbors_members set_of_list set_of_list'
                set_of_list_In set_of_list_In' self k) as Hmem.
  rewrite Hns in Hmem.
  destruct (LeftNeighbors set_of_list' self k) as [ns'|] eqn:Hns';
    cbn in Hmem; [|tauto].
  destruct (min_by_len_members ns ns' shortest Hmem Hmin)
    as (shortest' & Hmin' & _).
  assert (Hc' : LeftCandidates set_of_list' self k
                = Ok (set_of_list'
                        (map (fun i => slice shortest' (Some i) None)
                             (range (len shortest')))))
    by (unfold LeftCandidates; rewrite Hns'; cbn [bind]; now rewrite Hmin').
  destruct (LeftCandidates_spec set_of_list' set_of_list_In' _ _ _ Hc')
    as (ns2 & shortest2 & Hns2 & Hmin2 & Hin2 & _ & Hcands').
  assert (ns2 = ns') as -> by congruence.
  assert (shortest2 = shortest') as -> by congruence.
  now exists ns, ns', shortest, shortest', (set_of_list'
    (map (fun i => slice shortest' (Some i) None) (range (len shortest')))).
Qed.

Lemma passes_is_candidate (v shortest : str) ns :
  In shortest ns ->
  forallb (ProperSuffix v) ns = true ->
  v <> [] /\ exists p, shortest = p ++ v.
Proof.
  intros Hin Hall.
  pose proof (proj1 (forallb_forall _ _) Hall _ Hin) as H.
  split; [intros ->; now rewrite ProperSuffix_nil in H|].
  apply ProperSuffix_iff in H as (p & -> & _); now exists p.
Qed.

Lemma GetValidLeft_inner_order self k found :
  GetValidLeft_inner set_of_list self k = Ok found ->
  exists found',
    GetValidLeft_inner set_of_list' self k = Ok found'
    /\ (found = None <-> found' = None).
Proof.
  unfold GetValidLeft_inner at 1; rewrite bind_Ok; intros (cands & Hc & Hf).
  destruct (LeftCandidates_order self k cands Hc)
    as (ns & ns' & shortest & shortest' & cands' & Hns & Hns' & Hmem
        & Hin & Hin' & Hc' & Hcands & Hcands').
  unfold GetValidLeft_inner; rewrite Hc'; cbn [bind].
  rewrite (first_valid_ext_in _ (fun u => IsValidLeft set_of_list self u k))
    by (intros v _; symmetry;
        apply (IsValidLeft_order set_of_list set_of_list'
                 set_of_list_In set_of_list_In')).
  destruct found as [u|].
  - apply first_valid_Some in Hf as (pre & post & Ec & _ & Hu).
    destruct (first_valid_total (fun v => IsValidLeft set_of_list self v k)
                cands') as [found' Hf'].
    { intros v _; apply (IsValidLeft_total_of_true _ _ u _ Hu). }
    exists found'; split; [assumption|]; split; [discriminate|].
    intros ->; exfalso.
    pose proof (proj1 (first_valid_None _ _) Hf' u) as Hno.
    destruct (IsValidLeft_true set_of_list _ _ _ Hu) as (ns2 & Hns2 & Hall).
    assert (ns2 = ns) as -> by congruence.
    rewrite Hno in Hu; [discriminate|].
    apply Hcands', (passes_is_candidate u shortest' ns);
      [now apply Hmem | now apply forallb_forall].
  - exists None; split; [|tauto].
    apply first_valid_None; intros v Hv.
    destruct (forallb (ProperSuffix v) ns) eqn:E.
    + apply (proj1 (first_valid_None _ _) Hf).
      apply Hcands, (passes_is_candidate v shortest ns); assumption.
    + now apply (IsValidLeft_not_all _ _ _ _ ns).
Qed.

End FallbackOrder.

Lemma prefix_is_candidate (v shortest shortest' : str) ns :
  In shortest ns ->
  (forall s, In s ns -> startswith s v = true) ->
  length shortest' = length shortest ->
  (exists t', t' <> [] /\ shortest' = v ++ t') ->
  exists t, t <> [] /\ shortest = v ++ t.
Proof.
  intros Hin Hall Hlen (t' & Ht' & E').
  pose proof (Hall _ Hin) as H; apply startswith_iff in H as [t Et].
  exists t; split; [|assumption]; intros ->.
  rewrite E', Et, !length_app in Hlen.
  destruct t'; [congruence | simpl in Hlen; lia].
Qed.

Lemma set_comprehension_empty_examples s self f xs :
  examples self = [] ->
  set_comprehension s self f = Ok xs -> xs = s [].
Proof.
  unfold set_comprehension; intros ->.
  change (enumerate (@nil str)) with (@nil (Z * str)); cbn; congruence.
Qed.

Section FallbackOrderRight.

Variables set_of_list set_of_list' : list str -> list str.
Hypothesis set_of_list_In : forall l x, In x (set_of_list l) <-> In x l.
Hypothesis set_of_list_In' : forall l x, In x (set_of_list' l) <-> In x l.

Lemma RightCandidates_order self k cands :
  RightCandidates set_of_list self k = Ok cands ->
  exists ns ns' shortest shortest' cands',
    RightNeighbors set_of_list self k = Ok ns
    /\ RightNeighbors set_of_list' self k = Ok ns'
    /\ (forall x, In x ns <-> In x ns')
    /\ In shortest ns /\ In shortest' ns'
    /\ length shortest' = length shortest
    /\ RightCandidates set_of_list' self k = Ok cands'
    /\ (forall u, In u cands <-> exists t, t <> [] /\ shortest = u ++ t)
    /\ (forall u, In u cands' <-> exists t, t <> [] /\ shortest' = u ++ t).
Proof.
  intros Hc.
  destruct (RightCandidates_spec set_of_list set_of_list_In _ _ _ Hc)
    as (ns & shortest & Hns & Hmin & Hin & _ & Hcands).
  pose proof (RightNeighbors_members set_of_list set_of_list'
                set_of_list_In set_of_list_In' self k) as Hmem.
  rewrite Hns in Hmem.
  destruct (RightNeighbors set_of_list' self k) as [ns'|] eqn:Hns';
    cbn in Hmem; [|tauto].
  destruct (min_by_len_members ns ns' shortest Hmem Hmin)
    as (shortest' & Hmin' & Hlen).
  assert (Hc' : RightCandidates set_of_list' self k
                = Ok (set_of_list'
                        (map (fun i => slice shortest' None (Some i))
                             (range (len shortest')))))
    by (unfold RightCandidates; rewrite Hns'; cbn [bind]; now rewrite Hmin').
  destruct (RightCandidates_spec set_of_list' set_of_list_In' _ _ _ Hc')
    as (ns2 & shortest2 & Hns2 & Hmin2 & Hin2 & _ & Hcands').
  assert (ns2 = ns') as -> by congruence.
  assert (shortest2 = shortest') as -> by congruence.
  now exists ns, ns', shortest, shortest', (set_of_list'
    (map (fun i => slice shortest' None (Some i)) (range (len shortest')))).
Qed.

Lemma GetValidRight_inner_order self k found :
  GetValidRight_inner set_of_list self k = Ok found ->
  exists found',
    GetValidRight_inner set_of_list' self k = Ok found'
    /\ (found = None <-> found' = None).
Proof.
  unfold GetValidRight_inner at 1; rewrite bind_Ok; intros (cands & Hc & Hf).
  destruct (RightCandidates_order self k cands Hc)
    as (ns & ns' & shortest & shortest' & cands' & Hns & Hns' & Hmem
        & Hin & Hin' & Hlen & Hc' & Hcands & Hcands').
  unfold GetValidRight_inner; rewrite Hc'; cbn [bind].
  rewrite (first_valid_ext_in _ (fun u => IsValidRight set_of_list self u k))
    by (intros v _; symmetry;
        apply (IsValidRight_order set_of_list set_of_list'
                 set_of_list_In set_of_list_In')).
  destruct found as [u|].
  - apply first_valid_Some in Hf as (pre & post & Ec & _ & Hu).
    destruct (first_valid_total (fun v => IsValidRight set_of_list self v k)
                cands') as [found' Hf'].
    { intros v _; apply (IsValidRight_total_of_Ok _ _ u _ _ Hu).
      now exists ns. }
    exists found'; split; [assumption|]; split; [discriminate|].
    intros ->; exfalso.
    pose proof (proj1 (first_valid_None _ _) Hf' u) as Hno.
    destruct (IsValidRight_true set_of_list _ _ _ Hu) as (ns2 & Hns2 & Hall).
    assert (ns2 = ns) as -> by congruence.
    rewrite Hno in Hu; [discriminate|].
    apply Hcands', (prefix_is_candidate u shortest' shortest ns');
      [assumption | intros s Hs; now apply Hall, Hmem | now symmetry |].
    apply Hcands; rewrite Ec; apply in_elt.
  - exists None; split; [|tauto].
    apply first_valid_None; intros v Hv.
    pose proof (proj1 (first_valid_None _ _) Hf) as Hno.
    assert (Hnil : In [] cands).
    { apply Hcands; exists shortest; split; [|reflexivity].
      apply Hcands' in Hv as (t' & Ht' & E'); intros ->.
      rewrite E', length_app in Hlen.
      destruct t'; [congruence | simpl in Hlen; lia]. }
    destruct (IsValidRight_total_of_Ok _ _ [] _ _ (Hno _ Hnil)
                (ex_intro _ ns Hns) v) as [[|] Hb]; [exfalso|assumption].
    destruct (IsValidRight_true set_of_list _ _ _ Hb) as (ns2 & Hns2 & Hall).
    assert (ns2 = ns) as -> by congruence.
    rewrite Hno in Hb; [discriminate|].
    apply Hcands, (prefix_is_candidate v shortest shortest' ns);
      [assumption | assumption | assumption | now apply Hcands'].
Qed.

(** A validated right delimiter is not empty. *)
Lemma validated_right_nonempty self k cands u :
  RightCandidates set_of_list self k = Ok cands ->
  IsValidRight set_of_list self u k = Ok true -> u <> [].
Proof.
  intros Hc Hu ->.
  destruct (RightCandidates_spec set_of_list set_of_list_In _ _ _ Hc)
    as (ns & shortest & Hns & _ & Hin & _ & _).
  assert (Hex : examples self <> []).
  { intros E; unfold RightNeighbors in Hns.
    destruct (k =? num_attributes self - 1).
    - apply bind_Ok in Hns as (a & Ha & Hns).
      apply bind_Ok in Hns as (b & Hb & [= <-]).
      unfold Seps in Ha; rewrite Z.eqb_refl in Ha; injection Ha as <-.
      apply (set_comprehension_empty_examples _ _ _ _ E) in Hb; subst b.
      unfold union in Hin; cbn [app] in Hin.
      apply (proj1 (set_of_list_In _ _)) in Hin.
      apply (proj1 (set_of_list_In _ _)) in Hin; destruct Hin.
    - unfold Seps in Hns; destruct (k =? num_attributes self - 1).
      + injection Hns as <-; destruct Hin.
      + apply (set_comprehension_empty_examples _ _ _ _ E) in Hns; subst ns.
        apply (proj1 (set_of_list_In _ _)) in Hin; destruct Hin. }
  unfold IsValidRight in Hu.
  destruct (attributes set_of_list self k) as [ats|] eqn:Ha; [|discriminate].
  cbn [bind] in Hu.
  pose proof (set_comprehension_nonempty set_of_list set_of_list_In
                _ _ _ Hex Ha) as Hne.
  destruct ats as [|a ats]; [congruence|].
  cbn [existsb] in Hu; rewrite contains_nil in Hu; discriminate.
Qed.

End FallbackOrderRight.

Section ConstructionOrder.

Variables set_of_list set_of_list' : list str -> list str.
Hypothesis set_of_list_In : forall l x, In x (set_of_list l) <-> In x l.
Hypothesis set_of_list_In' : forall l x, In x (set_of_list' l) <-> In x l.

Lemma left_found_nonempty s self k u :
  (forall l x, In x (s l) <-> In x l) ->
  GetValidLeft_inner s self k = Ok (Some u) -> u <> [].
Proof.
  intros Hs H; apply GetValidLeft_inner_Some in H
    as (cands & pre & post & Hc & Ec & _ & _).
  destruct (LeftCandidates_spec s Hs _ _ _ Hc)
    as (ns & shortest & _ & _ & _ & _ & Hcands).
  apply (Hcands u); rewrite Ec; apply in_elt.
Qed.

Lemma right_found_nonempty s self k u :
  (forall l x, In x (s l) <-> In x l) ->
  GetValidRight_inner s self k = Ok (Some u) -> u <> [].
Proof.
  intros Hs H; apply GetValidRight_inner_Some in H
    as (cands & pre & post & Hc & Ec & _ & Hu).
  now apply (validated_right_nonempty s Hs self k cands).
Qed.

Lemma fallback_iff_None (found : option str) (l : list str) k :
  (forall u, found = Some u -> u <> []) ->
  nth_error l k = Some match found with Some u => u | None => [] end ->
  (nth_error l k = Some [] <-> found = None).
Proof.
  intros Hne ->; destruct found as [u|]; split; try tauto; try discriminate.
  intros [= ->]; now destruct (Hne [] eq_refl).
Qed.

(** X16.  Whether construction succeeds, and which attributes are left with
    the empty fallback delimiter, does not depend on the order sets iterate
    in: if it returns an object for one order it returns one for every other
    order, with [left[k]] empty in the one exactly when it is empty in the
    other, and the same for [right[k]]. *)
Theorem construction_order_independent :
  forall docs labs w,
    learn set_of_list docs labs = Ok w ->
    exists w',
      learn set_of_list' docs labs = Ok w'
      /\ forall k,
           (nth_error (left w) k = Some [] <-> nth_error (left w') k = Some [])
           /\ (nth_error (right w) k = Some []
               <-> nth_error (right w') k = Some []).
Proof.
  intros docs labs w Hw.
  destruct (learn_spec set_of_list docs labs w Hw)
    as (row0 & Hrow & E1 & E2 & E3 & HlenL & HlenR & H).
  set (n := len row0) in *.
  set (self := blank docs labs n).
  assert (Hinner : forall k, 0 <= k < n ->
    (exists fl fl',
        GetValidLeft_inner set_of_list w k = Ok fl
        /\ GetValidLeft_inner set_of_list' w k = Ok fl'
        /\ (fl = None <-> fl' = None))
    /\ (exists fr fr',
        GetValidRight_inner set_of_list w k = Ok fr
        /\ GetValidRight_inner set_of_list' w k = Ok fr'
        /\ (fr = None <-> fr' = None))).
  { intros k Hk; destruct (H k Hk) as ((fl & Hfl & _) & (fr & Hfr & _)).
    destruct (GetValidLeft_inner_order set_of_list set_of_list'
                set_of_list_In set_of_list_In' w k fl Hfl) as (fl' & Hfl' & Il).
    destruct (GetValidRight_inner_order set_of_list set_of_list'
                set_of_list_In set_of_list_In' w k fr Hfr) as (fr' & Hfr' & Ir).
    split; [now exists fl, fl' | now exists fr, fr']. }
  (* the searches with the other order *)
  destruct (table_loop_total (GetValidLeft_inner set_of_list') left with_left
              (GetValidLeft_step set_of_list')
              (fun _ _ => eq_refl) (fun _ _ _ => eq_refl) (fun _ _ => eq_refl)
              (range n) self) as [w1 H1].
  { intros k Hk; apply in_range in Hk; split.
    - cbn; unfold len; rewrite repeat_length; unfold n, len in *; lia.
    - destruct (Hinner k Hk) as ((fl & fl' & _ & Hfl' & _) & _).
      exists fl'; rewrite <- Hfl'; apply inner_left_data; now cbn. }
  change (for_each (GetValidLeft_step set_of_list') (range n) self)
    with (GetValidLeft set_of_list' self) in H1.
  pose proof (GetValidLeft_spec set_of_list' _ _ H1) as (Ew1 & Lw1 & _).
  destruct (table_loop_total (GetValidRight_inner set_of_list') right with_right
              (GetValidRight_step set_of_list')
              (fun _ _ => eq_refl) (fun _ _ _ => eq_refl) (fun _ _ => eq_refl)
              (range (num_attributes w1)) w1) as [w' H2].
  { replace (num_attributes w1) with n by (now rewrite Ew1).
    intros k Hk; apply in_range in Hk; split.
    - rewrite Ew1; cbn; unfold len; rewrite repeat_length.
      unfold n, len in *; lia.
    - destruct (Hinner k Hk) as (_ & (fr & fr' & _ & Hfr' & _)).
      exists fr'; rewrite <- Hfr'; apply inner_right_data;
        rewrite Ew1; now cbn. }
  change (for_each (GetValidRight_step set_of_list')
            (range (num_attributes w1)) w1)
    with (GetValidRight set_of_list' w1) in H2.
  assert (Hw' : learn set_of_list' docs labs = Ok w').
  { unfold learn; rewrite Hrow; cbn [bind]; fold n; fold self.
    now rewrite H1. }
  exists w'; split; [assumption|]; intros k.
  destruct (learn_spec set_of_list' docs labs w' Hw')
    as (row0' & Hrow' & E1' & E2' & E3' & HlenL' & HlenR' & H').
  assert (row0' = row0) as -> by congruence.
  destruct (Nat.lt_ge_cases k (length row0)) as [Hk|Hk].
  - assert (Hkz : 0 <= Z.of_nat k < n) by (unfold n, len; lia).
    destruct (H _ Hkz) as ((fl & Hfl & Hl) & (fr & Hfr & Hr)).
    destruct (H' _ Hkz) as ((fl2 & Hfl2 & Hl2) & (fr2 & Hfr2 & Hr2)).
    destruct (Hinner _ Hkz)
      as ((fl0 & fl' & Hfl0 & Hfl' & Il) & (fr0 & fr' & Hfr0 & Hfr' & Ir)).
    assert (fl0 = fl) as -> by congruence.
    assert (fr0 = fr) as -> by congruence.
    assert (fl2 = fl') as ->.
    { rewrite (inner_left_data _ w' w) in Hfl2 by (unfold n in *; congruence).
      congruence. }
    assert (fr2 = fr') as ->.
    { rewrite (inner_right_data _ w' w) in Hfr2 by (unfold n in *; congruence).
      congruence. }
    rewrite Nat2Z.id in *; split.
    + rewrite (fallback_iff_None fl (left w) k), (fallback_iff_None fl' (left w') k);
        try assumption.
      * intros u ->.
        exact (left_found_nonempty set_of_list' w _ u set_of_list_In' Hfl').
      * intros u ->.
        exact (left_found_nonempty set_of_list w _ u set_of_list_In Hfl).
    + rewrite (fallback_iff_None fr (right w) k),
              (fallback_iff_None fr' (right w') k); try assumption.
      * intros u ->.
        exact (right_found_nonempty set_of_list' w _ u set_of_list_In' Hfr').
      * intros u ->.
        exact (right_found_nonempty set_of_list w _ u set_of_list_In Hfr).
  - rewrite !(proj2 (nth_error_None _ _)) by lia.
    split; split; discriminate.
Qed.

End ConstructionOrder.

Lemma construction_order_independent_witness :
  exists w',
    learn reverse_insertion_order scenario_docs scenario_labels = Ok w'
    /\ forall k,
         (nth_error (left scenario_learned) k = Some []
          <-> nth_error (left w') k = Some [])
         /\ (nth_error (right scenario_learned) k = Some []
             <-> nth_error (right w') k = Some []).
Proof.
  exact (construction_order_independent insertion_order
           reverse_insertion_order insertion_order_In
           reverse_insertion_order_In scenario_docs scenario_labels
           scenario_learned scenario_learn).
Defined.

(** * Adding a training document: left delimiters *)

Section AddedDocumentLeft.

Variable set_of_list : list str -> list str.
Hypothesis set_of_list_In : forall l x, In x (set_of_list l) <-> In x l.

Variables (docs : list str) (labs : list (list span)).
Variables (P : str) (row : list span).
Variables (self self' : wrapper).

Hypothesis Hlen : length labs = length docs.
Hypothesis Hdocs : docs <> [].
Hypothesis Hself : holds self docs labs.
Hypothesis Hself' : holds self' (docs ++ [P]) (labs ++ [row]).

Lemma added_example_heads s' :
  example_heads set_of_list self' = Ok s' ->
  exists s, example_heads set_of_list self = Ok s
            /\ forall x, In x s -> In x s'.
Proof.
  intros H.
  eapply (set_comprehension_added set_of_list set_of_list_In self self' P)
    in H as (s & Hs & Hin); [exists s; split; [exact Hs | exact Hin] | |].
  - apply (added_examples docs labs P row); assumption.
  - intros i Q Hi HQ; cbn beta.
    now rewrite (added_label docs labs P row self self' Hlen Hself Hself'
                   i Q 0 Hi HQ).
Qed.

Lemma added_LeftNeighbors k s' :
  LeftNeighbors set_of_list self' k = Ok s' ->
  exists s, LeftNeighbors set_of_list self k = Ok s
            /\ forall x, In x s -> In x s'.
Proof.
  pose proof (added_num_attributes docs labs P row self self'
                Hlen Hdocs Hself Hself') as En.
  unfold LeftNeighbors; rewrite En.
  destruct (k =? 0).
  - unfold Seps; rewrite En, !Z.eqb_refl; cbn [bind].
    rewrite bind_Ok; intros (h' & Hh' & [= <-]).
    destruct (added_example_heads h' Hh') as (h & -> & Hin); cbn [bind].
    exists (union set_of_list [] h); split; [reflexivity|].
    unfold union; cbn [app]; intros x Hx.
    now apply set_of_list_In, Hin, set_of_list_In.
  - destruct (Z.eq_dec (k - 1) (num_attributes self - 1)) as [E|E].
    + unfold Seps; rewrite En, E, Z.eqb_refl; intros [= <-].
      now exists [].
    + intros H.
      destruct (added_Seps set_of_list set_of_list_In docs labs P row
                  self self' Hlen Hdocs Hself Hself' (k - 1) s' E H)
        as (s & Hs & _ & Hin).
      now exists s.
Qed.

(** X17.  A left delimiter that passes [IsValidLeft] on a training set with
    one more document passes it on the training set without that document:
    adding a document can only take valid left delimiters away. *)
Theorem added_document_left_delimiter :
  forall u k,
    IsValidLeft set_of_list self' u k = Ok true ->
    IsValidLeft set_of_list self u k = Ok true.
Proof.
  intros u k; unfold IsValidLeft; rewrite bind_Ok; intros (ns' & Hns' & H).
  destruct (added_LeftNeighbors k ns' Hns') as (ns & -> & Hin); cbn [bind].
  destruct (forallb (ProperSuffix u) ns') eqn:E'; [|discriminate].
  assert (E : forallb (ProperSuffix u) ns = true).
  { apply forallb_forall; intros x Hx.
    apply (proj1 (forallb_forall _ _) E'), Hin, Hx. }
  rewrite E; cbn [negb] in *.
  destruct (k =? 0); [|reflexivity].
  apply bind_Ok in H as (ts' & Hts' & [= H]).
  destruct (added_example_tails set_of_list set_of_list_In docs labs P row
              self self' Hlen Hdocs Hself Hself' ts' Hts')
    as (ts & -> & _ & Hint); cbn [bind].
  f_equal; apply negb_true_iff in H; apply negb_true_iff.
  destruct (existsb (contains u) ts) eqn:Ex; [|reflexivity].
  apply existsb_exists in Ex as (t & Ht & Hc).
  assert (existsb (contains u) ts' = true); [|congruence].
  apply existsb_exists; exists t; split; [now apply Hint | assumption].
Qed.

End AddedDocumentLeft.

Lemma added_document_left_delimiter_witness :
  IsValidLeft insertion_order scenario_first_learned (lit "Name: ") 0 = Ok true.
Proof.
  apply (added_document_left_delimiter insertion_order insertion_order_In
           [lit "Name: Alice Age: 30"] [[(6, 11); (17, 19)]]
           (lit "Name: Bob Age: 45") [(6, 9); (15, 17)]
           scenario_first_learned scenario_learned).
  - reflexivity.
  - discriminate.
  - repeat split.
  - repeat split.
  - reflexivity.
Defined.

(** * Further properties of the learner *)

Lemma ProperSuffix_self s : s <> [] -> ProperSuffix s s = true.
Proof.
  intros Hs; apply ProperSuffix_iff; exists []; split; [reflexivity|].
  intros (x & y & E); symmetry in E.
  apply app_eq_nil in E as [_ E]; apply app_eq_nil in E as [E _]; congruence.
Qed.

Lemma candidate_lists_NoDup (shortest : str) :
  NoDup (map (fun i => slice shortest (Some i) None) (range (len shortest)))
  /\ NoDup (map (fun i => slice shortest None (Some i)) (range (len shortest))).
Proof.
  split; apply NoDup_map_NoDup_ForallPairs; try apply NoDup_range;
    intros i j Hi Hj E; apply in_range in Hi, Hj;
    apply (f_equal (@length ascii)) in E.
  - rewrite !slice_from, !length_skipn in E by lia; unfold len in *; lia.
  - rewrite !slice_to, !length_firstn in E by lia; unfold len in *; lia.
Qed.

Section LearnerMore.

Variable set_of_list : list str -> list str.
Hypothesis set_of_list_In : forall l x, In x (set_of_list l) <-> In x l.
Hypothesis set_of_list_NoDup : forall l, NoDup (set_of_list l).

Lemma set_of_list_length l : NoDup l -> length (set_of_list l) = length l.
Proof.
  intros Hl; apply Permutation_length, NoDup_Permutation;
    [apply set_of_list_NoDup | assumption | apply set_of_list_In].
Qed.

(** X18.  There are exactly [len(shortest)] candidates on either side.  The
    right candidates are the proper prefixes of the shortest right neighbour:
    the empty prefix is one of them as soon as that neighbour is not empty,
    the neighbour itself never is. *)
Theorem candidates_count :
  forall (self : wrapper) (k : Z),
    (forall ns shortest,
        LeftNeighbors set_of_list self k = Ok ns ->
        min_by_len ns = Ok shortest ->
        exists cands,
          LeftCandidates set_of_list self k = Ok cands
          /\ length cands = length shortest)
    /\ (forall ns shortest,
        RightNeighbors set_of_list self k = Ok ns ->
        min_by_len ns = Ok shortest ->
        exists cands,
          RightCandidates set_of_list self k = Ok cands
          /\ length cands = length shortest
          /\ (forall u, In u cands <-> exists t, t <> [] /\ shortest = u ++ t)
          /\ (In [] cands <-> shortest <> [])
          /\ ~ In shortest cands).
Proof.
  intros self k; split; intros ns shortest Hns Hmin.
  - unfold LeftCandidates; rewrite Hns; cbn [bind]; rewrite Hmin; cbn [bind].
    eexists; split; [reflexivity|].
    rewrite set_of_list_length by apply candidate_lists_NoDup.
    rewrite length_map, length_range; unfold len; lia.
  - unfold RightCandidates; rewrite Hns; cbn [bind]; rewrite Hmin; cbn [bind].
    eexists; split; [reflexivity|].
    assert (Hc : forall u,
      In u (set_of_list
              (map (fun i => slice shortest None (Some i))
                   (range (len shortest))))
      <-> exists t, t <> [] /\ shortest = u ++ t)
      by (intros u; rewrite set_of_list_In; apply prefix_candidates).
    split; [|split; [exact Hc | split]].
    + rewrite set_of_list_length by apply candidate_lists_NoDup.
      rewrite length_map, length_range; unfold len; lia.
    + rewrite Hc; split.
      * intros (t & Ht & ->); exact Ht.
      * intros Hne; now exists shortest.
    + rewrite Hc; intros (t & Ht & E).
      apply (f_equal (@length ascii)) in E; rewrite length_app in E.
      destruct t; [congruence | simpl in E; lia].
Qed.

(** X19.  For an attribute other than the first: if the text between it and
    the attribute before it is the same non-empty string in every training
    document, construction learns a left delimiter for it, not the fallback:
    that string is a candidate and passes [IsValidLeft]. *)
Theorem uniform_left_neighbour_is_learned :
  forall docs labs w k ns s,
    learn set_of_list docs labs = Ok w ->
    0 < k < num_attributes w ->
    LeftNeighbors set_of_list w k = Ok ns ->
    (forall x, In x ns -> x = s) -> s <> [] ->
    exists u,
      nth_error (left w) (Z.to_nat k) = Some u
      /\ u <> []
      /\ IsValidLeft set_of_list w u k = Ok true.
Proof.
  intros docs labs w k ns s Hw Hk Hns Hall Hs.
  destruct (learn_spec set_of_list docs labs w Hw)
    as (row0 & _ & _ & _ & E3 & _ & _ & H).
  destruct (H k ltac:(lia)) as ((fl & Hfl & Hl) & _).
  destruct fl as [u|].
  - exists u; split; [assumption|].
    pose proof Hfl as Hfl'.
    apply GetValidLeft_inner_Some in Hfl
      as (cands & pre & post & Hc & Ec & _ & Hv).
    split; [|assumption].
    destruct (LeftCandidates_spec set_of_list set_of_list_In _ _ _ Hc)
      as (ns' & shortest & _ & _ & _ & _ & Hcands).
    apply (Hcands u); rewrite Ec; apply in_elt.
  - exfalso; unfold GetValidLeft_inner in Hfl.
    apply bind_Ok in Hfl as (cands & Hc & Hf).
    destruct (LeftCandidates_spec set_of_list set_of_list_In _ _ _ Hc)
      as (ns' & shortest & Hns' & _ & Hin & _ & Hcands).
    assert (ns' = ns) as -> by congruence.
    assert (shortest = s) as -> by now apply Hall.
    assert (Hcand : In s cands) by (apply Hcands; split; [assumption | now exists []]).
    pose proof (proj1 (first_valid_None _ _) Hf s Hcand) as Hno.
    unfold IsValidLeft in Hno; rewrite Hns in Hno; cbn [bind] in Hno.
    assert (E : forallb (ProperSuffix s) ns = true).
    { apply forallb_forall; intros x Hx; rewrite (Hall x Hx).
      now apply ProperSuffix_self. }
    rewrite E in Hno; cbn [negb] in Hno.
    destruct (k =? 0) eqn:Ek; [lia | discriminate].
Qed.

(** X20.  [GetValidLeft] writes the table of left delimiters only: the
    training data, [num_attributes] and the right delimiters are as before,
    and the table keeps its length.  [GetValidRight] likewise writes the
    table of right delimiters only. *)
Theorem GetValid_frame :
  forall self self',
    (GetValidLeft set_of_list self = Ok self' ->
       labels self' = labels self /\ examples self' = examples self
       /\ num_attributes self' = num_attributes self
       /\ right self' = right self
       /\ length (left self') = length (left self))
    /\ (GetValidRight set_of_list self = Ok self' ->
       labels self' = labels self /\ examples self' = examples self
       /\ num_attributes self' = num_attributes self
       /\ left self' = left self
       /\ length (right self') = length (right self)).
Proof.
  intros self self'; split; intros H.
  - apply GetValidLeft_spec in H as (E & L & _); rewrite E; now cbn.
  - apply GetValidRight_spec in H as (E & L & _); rewrite E; now cbn.
Qed.

End LearnerMore.

(** X22.  Extraction is right on any page, of the training set or not, on
    which the delimiters are unambiguous: when the values lie at sorted,
    disjoint spans of the page, every [left[k]] ends the text in front of
    value [k] and is not found earlier in it, and every [right[k]] starts the
    text after value [k] and is not found before the end of the value,
    [execLR] returns exactly the values. *)
Theorem execLR_on_unambiguous_page :
  forall (self : wrapper) (P : str) (row : list span),
    ordered P row ->
    length (left self) = length row ->
    length (right self) = length row ->
    (forall k l r,
        nth_error (left self) k = Some l -> nth_error (right self) k = Some r ->
        endswith (left_neighbor_of P row k) l = true
        /\ startswith (right_neighbor_of P row k) r = true
        /\ unambiguous P row k l r) ->
    fst (execLR self P)
    = map (fun sp : span => slice P (Some (fst sp)) (Some (snd sp))) row.
Proof.
  intros self P row Hord HL HR Hd.
  rewrite <- map_attribute_of; now apply execLR_labelled.
Qed.

Lemma candidates_count_witness :
  exists cands,
    RightCandidates insertion_order scenario_learned 0 = Ok cands
    /\ length cands = length (lit " Age: ").
Proof.
  destruct (proj2 (candidates_count insertion_order insertion_order_In
                     insertion_order_NoDup scenario_learned 0)
              [lit " Age: "] (lit " Age: ") eq_refl eq_refl)
    as (cands & Hc & Hlen & _).
  now exists cands.
Defined.

Lemma uniform_left_neighbour_is_learned_witness :
  exists u,
    nth_error (left scenario_learned) (Z.to_nat 1) = Some u
    /\ u <> []
    /\ IsValidLeft insertion_order scenario_learned u 1 = Ok true.
Proof.
  apply (uniform_left_neighbour_is_learned insertion_order insertion_order_In
           scenario_docs scenario_labels scenario_learned 1
           [lit " Age: "] (lit " Age: ") scenario_learn).
  - cbn; lia.
  - reflexivity.
  - intros x [<-|[]]; reflexivity.
  - discriminate.
Defined.

Lemma execLR_on_unambiguous_page_witness :
  fst (execLR html_learned (lit "<b>Carol</b><i>22</i>"))
  = map (fun sp : span =>
           slice (lit "<b>Carol</b><i>22</i>") (Some (fst sp)) (Some (snd sp)))
        [(3, 8); (15, 17)].
Proof.
  apply execLR_on_unambiguous_page.
  - intros [|[|k]] Hk; [vm_compute | vm_compute | simpl in Hk; lia];
      repeat split; discriminate.
  - reflexivity.
  - reflexivity.
  - intros [|[|[|k]]] l r; cbn [nth_error left right html_learned];
      try discriminate; intros [= <-] [= <-];
      (split; [vm_compute; reflexivity|]);
      (split; [vm_compute; reflexivity|]);
      split; vm_compute; discriminate.
Defined.


(** * The store: what a call of [execLR] changes *)

Lemma alloc_old st o a x :
  nth_error st a = Some x -> nth_error (fst (alloc st o)) a = Some x.
Proof.
  intros H; unfold alloc; cbn [fst].
  rewrite nth_error_app1; [assumption|].
  apply nth_error_Some; congruence.
Qed.

Lemma alloc_new st o :
  nth_error (fst (alloc st o)) (snd (alloc st o)) = Some o.
Proof.
  unfold alloc; cbn [fst snd].
  rewrite nth_error_app2, Nat.sub_diag; [reflexivity | lia].
Qed.

Lemma alloc_fresh st o : nth_error st (snd (alloc st o)) = None.
Proof. unfold alloc; cbn [snd]; apply nth_error_None; lia. Qed.

Lemma list_append_spec st a v items :
  list_at st a = Some items ->
  exists st',
    list_append st a v = Some st'
    /\ list_at st' a = Some (items ++ [v])
    /\ forall b, b <> a -> nth_error st' b = nth_error st b.
Proof.
  intros Ha; unfold list_append; rewrite Ha.
  destruct (set_nth_Some st a (StrList (items ++ [v]))) as [st' Hst'].
  - apply nth_error_Some; unfold list_at in Ha.
    destruct (nth_error st a); [discriminate | discriminate].
  - exists st'; split; [assumption|].
    destruct (set_nth_spec _ _ _ _ Hst') as (_ & Hn & Ho).
    split; [unfold list_at; now rewrite Hn | assumption].
Qed.

Lemma list_at_frame st st' attr a :
  (forall b, b <> attr -> nth_error st' b = nth_error st b) ->
  a <> attr -> list_at st' a = list_at st a.
Proof. intros H Ha; unfold list_at; now rewrite H. Qed.

Lemma skipn_combine_nth {A B} (a : list A) (b : list B) i x y :
  nth_error a i = Some x -> nth_error b i = Some y ->
  skipn i (combine a b) = (x, y) :: skipn (S i) (combine a b).
Proof.
  revert b i; induction a as [|x0 a IH]; intros [|y0 b] [|i]; simpl;
    try discriminate.
  - now intros [= ->] [= ->].
  - apply IH.
Qed.

Lemma skipn_combine_end {A B} (a : list A) (b : list B) i :
  nth_error a i = None \/ nth_error b i = None ->
  skipn i (combine a b) = [].
Proof.
  intros H; apply skipn_all2; rewrite length_combine.
  destruct H as [H|H]; apply nth_error_None in H; lia.
Qed.

(** The loop of [execLR] on the store, when [attr] is neither of the two
    tables: it ends, it changes the list at [attr] and nothing else, and that
    list grows by what the loop of the function computes. *)
Lemma execLR_for_spec fuel :
  forall st left_ref right_ref attr i P L R acc,
    list_at st left_ref = Some L ->
    list_at st right_ref = Some R ->
    list_at st attr = Some acc ->
    attr <> left_ref -> attr <> right_ref ->
    (length (combine L R) - i < fuel)%nat ->
    exists st',
      execLR_for fuel st left_ref right_ref attr i P = Some st'
      /\ (forall b, b <> attr -> nth_error st' b = nth_error st b)
      /\ list_at st' attr =
         Some (fst (fold_left execLR_step (skipn i (combine L R)) (acc, P))).
Proof.
  induction fuel as [|fuel IH];
    intros st left_ref right_ref attr i P L R acc HL HR Hattr Hl Hr Hfuel;
    [lia|].
  cbn [execLR_for]; rewrite HL, HR.
  destruct (nth_error L i) as [l|] eqn:El.
  2:{ rewrite skipn_combine_end by now left.
      exists st; repeat split; assumption. }
  destruct (nth_error R i) as [r|] eqn:Er.
  2:{ rewrite skipn_combine_end by now right.
      exists st; repeat split; assumption. }
  rewrite (skipn_combine_nth _ _ _ _ _ El Er); cbn [fold_left].
  set (l_idx := find P l + len l).
  set (r_idx := find (slice P (Some l_idx) None) r + l_idx).
  cbv zeta.
  destruct (list_append_spec st attr (slice P (Some l_idx) (Some r_idx)) acc
              Hattr) as (st1 & -> & Hattr1 & Hframe1).
  assert (Hlen : (i < length (combine L R))%nat)
    by (apply nth_error_Some; now rewrite (nth_error_combine _ _ _ _ _ El Er)).
  destruct (IH st1 left_ref right_ref attr (S i) (slice P (Some r_idx) None)
              L R (acc ++ [slice P (Some l_idx) (Some r_idx)]))
    as (st' & Hrun & Hframe & Hres);
    [ rewrite (list_at_frame st st1 attr) by (assumption || congruence);
      assumption
    | rewrite (list_at_frame st st1 attr) by (assumption || congruence);
      assumption
    | assumption | assumption | assumption | lia |].
  exists st'; split; [assumption|]; split.
  - intros b Hb; rewrite Hframe by assumption; now apply Hframe1.
  - rewrite Hres; reflexivity.
Qed.

(** One call of [execLR] on the store. *)
Lemma execLR_call_spec st self w P fuel :
  wrapper_at st self = Some w ->
  (length (combine (left w) (right w)) < fuel)%nat ->
  exists st',
    execLR_call fuel st self P = Some (st', length st)
    /\ (forall b, b <> length st -> nth_error st' b = nth_error (st ++ [StrList []]) b)
    /\ list_at st' (length st) = Some (fst (execLR w P)).
Proof.
  intros Hw Hfuel; unfold wrapper_at in Hw.
  destruct (nth_error st self) as [[| |lb ex n lref rref]|] eqn:Eself;
    try discriminate.
  destruct (labels_at st lb) as [labs|]; [|discriminate].
  destruct (list_at st ex) as [docs|]; [|discriminate].
  destruct (list_at st lref) as [L|] eqn:EL; [|discriminate].
  destruct (list_at st rref) as [R|] eqn:ER; [|discriminate].
  injection Hw as <-; cbn [left right] in Hfuel.
  assert (Hin : forall a x, nth_error st a = Some x ->
                  nth_error (st ++ [StrList []]) a = Some x /\ a <> length st).
  { intros a x Ha; split; [exact (alloc_old st (StrList []) a x Ha)|].
    intros ->; pose proof (alloc_fresh st (StrList [])) as Hf;
      cbn [alloc snd] in Hf; congruence. }
  assert (Hlist : forall a l, list_at st a = Some l ->
                  list_at (st ++ [StrList []]) a = Some l /\ a <> length st).
  { intros a l Ha; unfold list_at in *.
    destruct (nth_error st a) as [o|] eqn:Ea; [|discriminate].
    destruct (Hin a o Ea) as [-> Hne]; split; assumption. }
  destruct (Hlist _ _ EL) as [EL0 HneL], (Hlist _ _ ER) as [ER0 HneR].
  destruct (execLR_for_spec fuel (st ++ [StrList []]) lref rref (length st) 0 P
              L R [] EL0 ER0) as (st' & Hrun & Hframe & Hres);
    [ unfold list_at;
      now rewrite (alloc_new st (StrList []) : nth_error (st ++ _) (length st) = _)
    | congruence | congruence | lia |].
  exists st'; unfold execLR_call, alloc.
  rewrite (proj1 (Hin _ _ Eself)), Hrun.
  repeat split; [assumption|].
  rewrite Hres; unfold execLR; cbn [skipn left right fst]; reflexivity.
Qed.

(** The store can tell a call that changes a table from one that does not:
    an [append] to the left table of the scenario changes the wrapper the
    instance stands for. *)
Lemma list_append_changes_wrapper :
  exists st',
    list_append scenario_store 2 (lit "<b>") = Some st'
    /\ wrapper_at scenario_store 4 = Some scenario_learned
    /\ wrapper_at st' 4 <> Some scenario_learned.
Proof. eexists; repeat split; discriminate. Qed.

(** What the objects of a store stand for is kept by a store that keeps its
    objects. *)
Lemma wrapper_at_frame st st' self w :
  (forall a o, nth_error st a = Some o -> nth_error st' a = Some o) ->
  wrapper_at st self = Some w -> wrapper_at st' self = Some w.
Proof.
  intros Hkeep Hw; unfold wrapper_at in *.
  destruct (nth_error st self) as [[| |lb ex n lref rref]|] eqn:Eself;
    try discriminate.
  rewrite (Hkeep _ _ Eself).
  assert (Hl : forall a l, list_at st a = Some l -> list_at st' a = Some l).
  { intros a l; unfold list_at.
    destruct (nth_error st a) as [o|] eqn:Ea; [|discriminate].
    now rewrite (Hkeep _ _ Ea). }
  assert (Hlb : forall a l, labels_at st a = Some l -> labels_at st' a = Some l).
  { intros a l; unfold labels_at.
    destruct (nth_error st a) as [o|] eqn:Ea; [|discriminate].
    now rewrite (Hkeep _ _ Ea). }
  destruct (labels_at st lb) as [labs|] eqn:E1; [|discriminate].
  destruct (list_at st ex) as [docs|] eqn:E2; [|discriminate].
  destruct (list_at st lref) as [L|] eqn:E3; [|discriminate].
  destruct (list_at st rref) as [R|] eqn:E4; [|discriminate].
  now rewrite (Hlb _ _ E1), (Hl _ _ E2), (Hl _ _ E3), (Hl _ _ E4).
Qed.

Lemma execLR_call_keeps st self w P fuel :
  wrapper_at st self = Some w ->
  (length (combine (left w) (right w)) < fuel)%nat ->
  exists st' attr,
    execLR_call fuel st self P = Some (st', attr)
    /\ nth_error st attr = None
    /\ (forall a o, nth_error st a = Some o -> nth_error st' a = Some o)
    /\ list_at st' attr = Some (fst (execLR w P)).
Proof.
  intros Hw Hfuel.
  destruct (execLR_call_spec st self w P fuel Hw Hfuel)
    as (st' & Hrun & Hframe & Hres).
  exists st', (length st); split; [assumption|]; split;
    [apply nth_error_None; lia|]; split; [|assumption].
  intros a o Ha.
  assert (a < length st)%nat by (apply nth_error_Some; congruence).
  rewrite Hframe by lia.
  now rewrite nth_error_app1.
Qed.

(** C8.  A call of [execLR] on a wrapper in the store returns, and the store
    it leaves holds every object of the store before the call as it was: the
    instance, its labels and documents and its two delimiter tables, so the
    wrapper the instance stands for is the same; the list returned is a new
    object.  Consequently a second call on the same page returns a list with
    the same items as the first, which the second call has left as it
    was. *)
Theorem execLR_frame :
  forall (st : store) (self : nat) (w : wrapper) (P : str) (fuel : nat),
    wrapper_at st self = Some w ->
    (length (combine (left w) (right w)) < fuel)%nat ->
    exists st1 attr1 st2 attr2,
      execLR_call fuel st self P = Some (st1, attr1)
      /\ (forall a o, nth_error st a = Some o -> nth_error st1 a = Some o)
      /\ wrapper_at st1 self = Some w
      /\ nth_error st attr1 = None
      /\ list_at st1 attr1 = Some (fst (execLR w P))
      /\ execLR_call fuel st1 self P = Some (st2, attr2)
      /\ (forall a o, nth_error st1 a = Some o -> nth_error st2 a = Some o)
      /\ wrapper_at st2 self = Some w
      /\ list_at st2 attr2 = list_at st1 attr1
      /\ list_at st2 attr1 = list_at st1 attr1.
Proof.
  intros st self w P fuel Hw Hfuel.
  destruct (execLR_call_keeps st self w P fuel Hw Hfuel)
    as (st1 & attr1 & Hrun1 & Hnew1 & Hkeep1 & Hres1).
  pose proof (wrapper_at_frame st st1 self w Hkeep1 Hw) as Hw1.
  destruct (execLR_call_keeps st1 self w P fuel Hw1 Hfuel)
    as (st2 & attr2 & Hrun2 & Hnew2 & Hkeep2 & Hres2).
  exists st1, attr1, st2, attr2.
  repeat split; try assumption.
  - now apply (wrapper_at_frame st1 st2).
  - congruence.
  - unfold list_at in Hres1 |- *.
    destruct (nth_error st1 attr1) as [o|] eqn:E; [|discriminate].
    now rewrite (Hkeep2 _ _ E).
Qed.

Lemma execLR_frame_witness :
  exists st1 attr1 st2 attr2,
    execLR_call 3 scenario_store 4 scenario_page = Some (st1, attr1)
    /\ (forall a o, nth_error scenario_store a = Some o ->
                    nth_error st1 a = Some o)
    /\ wrapper_at st1 4 = Some scenario_learned
    /\ nth_error scenario_store attr1 = None
    /\ list_at st1 attr1 = Some (fst (execLR scenario_learned scenario_page))
    /\ execLR_call 3 st1 4 scenario_page = Some (st2, attr2)
    /\ (forall a o, nth_error st1 a = Some o -> nth_error st2 a = Some o)
    /\ wrapper_at st2 4 = Some scenario_learned
    /\ list_at st2 attr2 = list_at st1 attr1
    /\ list_at st2 attr1 = list_at st1 attr1.
Proof.
  apply (execLR_frame scenario_store 4 scenario_learned scenario_page 3);
    [reflexivity | cbn; lia].
Defined.
